(** * NBA salary model: valuation and projection engine

    A shallow embedding of the calculator's core (season clock, aging
    model, valuation engine, projection pipeline) and the properties its
    design document states about it.

    Numbers.  JavaScript numbers are IEEE-754 doubles.  This development
    reads every number as a real ([R]) and every arithmetic operation as
    the exact one; [NaN] and the infinities are outside the model.
    [Date] values are their integer millisecond time stamps. *)

From Stdlib Require Import Reals Lra Lia ZArith List.
From Stdlib Require Import Zfloor.
From stdpp Require Import base gmap strings.

#[local] Open Scope R_scope.

(** ** The fragment of JavaScript the sources rely on *)

Module Js.

(** A call either completes with a value or abruptly.  [TypeError] is
    the exception raised when a property of [undefined] is read;
    [UndefinedValue] marks an [undefined] reaching a place where the
    code needs a number; [NotANumber] marks arithmetic on something that
    is not a number, where JavaScript goes on with [NaN]. *)
Inductive abnormal : Type := TypeError | UndefinedValue | NotANumber.

Inductive completion (A : Type) : Type :=
| Normal (a : A)
| Abrupt (e : abnormal).
Arguments Normal {A} a.
Arguments Abrupt {A} e.

Definition bind {A B} (c : completion A) (k : A -> completion B)
  : completion B :=
  match c with
  | Normal a => k a
  | Abrupt e => Abrupt e
  end.

(** The values a string-keyed lookup in one of the constant tables can
    give: a string stored in the table, something inherited from
    [Object.prototype] (a function, or the prototype itself), or
    [undefined]. *)
Inductive value : Type :=
| Str (s : string)
| Inherited (name : string)
| Undefined.

(** Property names every plain object inherits from
    [Object.prototype]. *)
Definition Object_prototype : list string :=
  [ "constructor"; "hasOwnProperty"; "isPrototypeOf";
    "propertyIsEnumerable"; "toLocaleString"; "toString"; "valueOf";
    "__proto__"; "__defineGetter__"; "__defineSetter__";
    "__lookupGetter__"; "__lookupSetter__" ]%string.

Definition inherited (key : string) : bool :=
  bool_decide (key ∈ Object_prototype).

(** [obj[key]] for an object literal whose own properties are [own]:
    own properties first, then the prototype chain. *)
Definition get (own : gmap string string) (key : string) : value :=
  match own !! key with
  | Some s => Str s
  | None => if inherited key then Inherited key else Undefined
  end.

Definition truthy (v : value) : bool :=
  match v with
  | Str s => negb (bool_decide (s = ""%string))
  | Inherited _ => true
  | Undefined => false
  end.

(** [a || b] *)
Definition or_else (a b : value) : value := if truthy a then a else b.

(** [Math.pow(x, y)] for a base [x >= 0] and an exponent [y > 0], the
    only use the sources make of it. *)
Definition Math_pow (x y : R) : R :=
  if Req_dec_T x 0 then 0 else Rpower x y.

(** [x.toFixed(1)], given as the integer number of tenths the printed
    decimal denotes: the nearest tenth, the larger one on a tie, the
    sign handled apart.  (From 1e21 on JavaScript prints the number
    itself; a double that large is an integer, so nothing is lost.) *)
Definition toFixed1 (x : R) : Z :=
  if Rlt_dec x 0 then (- Zfloor (10 * (- x) + / 2))%Z
  else Zfloor (10 * x + / 2).

(** [parseFloat] of a string printed by [toFixed(1)]. *)
Definition parseFloat1 (tenths : Z) : R := IZR tenths / 10.

(** A number is truthy unless it is zero. *)
Definition nonzero (x : R) : bool := if Req_dec_T x 0 then false else true.

(** [new Date('yyyy-mm-dd')]: midnight UTC of a civil date, in
    milliseconds since the epoch. *)
Record Date : Type := mkDate { getTime : Z }.

Definition days_from_civil (y m d : Z) : Z :=
  let y' := (if m <=? 2 then y - 1 else y)%Z in
  let era := (y' / 400)%Z in
  let yoe := (y' - era * 400)%Z in
  let mp := (if m <=? 2 then m + 9 else m - 3)%Z in
  let doy := ((153 * mp + 2) / 5 + d - 1)%Z in
  let doe := (yoe * 365 + yoe / 4 - yoe / 100 + doy)%Z in
  (era * 146097 + doe - 719468)%Z.

Definition Date_of_ymd (y m d : Z) : Date :=
  mkDate (days_from_civil y m d * 86400000)%Z.

End Js.

Notation "'try' x <- c 'in' k" := (Js.bind c (fun x => k))
  (at level 10, x name, c at level 100, k at level 200,
   format "'[v' 'try'  x  <-  c  'in' '/' k ']'").

Import Js.

(** ** constants.js *)

Record SeasonConfig : Type := mkSeasonConfig {
  currentSeason : string;
  seasonStartDate : Date;
  seasonEndDate : Date;
  currentSeasonYear : Z;
  dataAsOfDate : Date
}.

Definition SEASON_CONFIG : SeasonConfig := {|
  currentSeason := "2025-26";
  seasonStartDate := Date_of_ymd 2025 10 22;
  seasonEndDate := Date_of_ymd 2026 4 13;
  currentSeasonYear := 2025;
  dataAsOfDate := Date_of_ymd 2026 1 28
|}.

Definition INFLATION_SCALERS : gmap string R :=
  list_to_map
    [ ("2026-27", 1.074); ("2027-28", 1.127); ("2028-29", 1.184);
      ("2029-30", 1.240); ("2030-31", 1.305) ]%string.

Definition POSITION_CATEGORIES : gmap string string :=
  list_to_map
    [ ("pg_pos", "guard"); ("sg_pos", "guard"); ("sf_pos", "wing");
      ("pf_pos", "big"); ("c_pos", "big") ]%string.

Definition guard_curve : gmap Z R :=
  list_to_map
    [ (20%Z, 0.60); (21%Z, 0.50); (22%Z, 0.40); (23%Z, 0.30); (24%Z, 0.15);
      (25%Z, 0.08); (26%Z, 0.03); (27%Z, 0.00); (28%Z, 0.00); (29%Z, -0.08);
      (30%Z, -0.15); (31%Z, -0.25); (32%Z, -0.40); (33%Z, -0.55); (34%Z, -0.75);
      (35%Z, -1.00); (36%Z, -1.30) ].

Definition wing_curve : gmap Z R :=
  list_to_map
    [ (20%Z, 0.65); (21%Z, 0.55); (22%Z, 0.45); (23%Z, 0.35); (24%Z, 0.20);
      (25%Z, 0.10); (26%Z, 0.03); (27%Z, 0.00); (28%Z, 0.00); (29%Z, -0.05);
      (30%Z, -0.10); (31%Z, -0.18); (32%Z, -0.28); (33%Z, -0.42); (34%Z, -0.58);
      (35%Z, -0.80); (36%Z, -1.05) ].

Definition big_curve : gmap Z R :=
  list_to_map
    [ (20%Z, 0.75); (21%Z, 0.60); (22%Z, 0.50); (23%Z, 0.35); (24%Z, 0.18);
      (25%Z, 0.05); (26%Z, 0.00); (27%Z, -0.03); (28%Z, -0.08); (29%Z, -0.15);
      (30%Z, -0.25); (31%Z, -0.38); (32%Z, -0.52); (33%Z, -0.70); (34%Z, -0.90);
      (35%Z, -1.15); (36%Z, -1.45) ].

Definition AGING_CURVES : gmap string (gmap Z R) :=
  list_to_map
    [ ("guard", guard_curve); ("wing", wing_curve); ("big", big_curve) ]%string.

Definition DEFAULT_POSITION_CATEGORY : string := "wing".

Definition REPLACEMENT_LEVEL_DARKO : R := -3.0.
Definition MINUTES_BASELINE : R := 1475.
Definition WIN_COST_MILLIONS : R := 4.32.
Definition MVP_BONUS_CAP : R := 0.10.
Definition MVP_BONUS_EXPONENT : R := 1.2.
Definition MVP_BONUS_DIVISOR : R := 4.
Definition MINIMUM_SALARY_THRESHOLD : R := 3.0.

Definition FUTURE_YEARS : list string :=
  [ "2026-27"; "2027-28"; "2028-29"; "2029-30"; "2030-31" ]%string.

(** ** The utility functions (season clock, aging model, valuation) *)

(** [for (let i = 0; i < n; i++) acc = body(i, acc)], entered at [i]
    with [count] iterations left. *)
Fixpoint for_loop {A : Type} (count : nat) (i : Z)
    (body : Z -> A -> completion A) (acc : A) : completion A :=
  match count with
  | O => Normal acc
  | S count' =>
      try acc' <- body i acc in
      for_loop count' (i + 1)%Z body acc'
  end.

Section SeasonClock.

(** The module-level [SEASON_CONFIG] the functions read, passed
    explicitly. *)
Variable cfg : SeasonConfig.

(** The argument is [None] when the caller leaves [asOfDate] out.  The
    quotient is the real one, which is the code's for a season of
    non-zero length; dividing by a zero duration JavaScript gets
    [Infinity] or [NaN], which are not in the model. *)
Definition getSeasonProgress (asOfDate : option Date) : R :=
  let asOfDate := default (dataAsOfDate cfg) asOfDate in
  let seasonDuration :=
    IZR (getTime (seasonEndDate cfg)) - IZR (getTime (seasonStartDate cfg)) in
  let elapsed :=
    IZR (getTime asOfDate) - IZR (getTime (seasonStartDate cfg)) in
  let progress := Rmax 0 (Rmin 1 (elapsed / seasonDuration)) in
  progress.

End SeasonClock.

(** What [AGING_CURVES[category]] evaluates to: one of the three tables,
    some other object reached through the prototype chain, or
    [undefined]. *)
Inductive curve_ref : Type :=
| Curve (table : gmap Z R)
| OtherObject
| NoCurve.

Definition AGING_CURVES_get (category : value) : curve_ref :=
  match category with
  | Str s =>
      match AGING_CURVES !! s with
      | Some table => Curve table
      | None => if inherited s then OtherObject else NoCurve
      end
  | Inherited _ => NoCurve
  | Undefined => NoCurve
  end.

(** [curve[ageKey]] *)
Definition curve_at (curve : curve_ref) (ageKey : Z) : completion R :=
  match curve with
  | Curve table =>
      match table !! ageKey with
      | Some delta => Normal delta
      | None => Abrupt UndefinedValue
      end
  | OtherObject => Abrupt UndefinedValue
  | NoCurve => Abrupt TypeError
  end.

Definition getAgingDelta (age : R) (position : string) : completion R :=
  let category :=
    or_else (Js.get POSITION_CATEGORIES position) (Str DEFAULT_POSITION_CATEGORY) in
  let curve := AGING_CURVES_get category in
  let ageKey := Z.max 20 (Z.min 36 (Zfloor age)) in
  curve_at curve ageKey.

Section AgingOverTheSeason.

Variable cfg : SeasonConfig.

Definition getPartialYearAgingDelta (age : R) (position : string)
    (asOfDate : option Date) : completion R :=
  try fullYearDelta <- getAgingDelta age position in
  let seasonProgress := getSeasonProgress cfg asOfDate in
  Normal (fullYearDelta * seasonProgress).

Definition getCumulativeAgingDelta (currentAge : R) (position : string)
    (yearsForward : Z) (includePartialCurrentYear : bool) : completion R :=
  let cumulativeDelta := 0 in
  try cumulativeDelta <-
    (if includePartialCurrentYear
     then try partial <- getPartialYearAgingDelta currentAge position None in
          Normal (cumulativeDelta + partial)
     else Normal cumulativeDelta) in
  for_loop (Z.to_nat yearsForward) 0
    (fun i cumulativeDelta =>
       try delta <- getAgingDelta (currentAge + IZR i) position in
       Normal (cumulativeDelta + delta))
    cumulativeDelta.

End AgingOverTheSeason.

(** The result of a valuation: the string ["Minimum Salary"], or the
    decimal string [toFixed(1)] printed, kept as its number of tenths. *)
Inductive salary : Type :=
| MinimumSalary
| Fixed1 (tenths : Z).

(** The value of [salary] before the star bonus / replacement penalty. *)
Definition baseSalary (games minutes darko : R) : R :=
  (games * minutes / MINUTES_BASELINE)
  * (darko - REPLACEMENT_LEVEL_DARKO)
  * WIN_COST_MILLIONS.

Definition boostFactor (darko : R) : R :=
  Math_pow (Rabs darko / MVP_BONUS_DIVISOR) MVP_BONUS_EXPONENT * MVP_BONUS_CAP.

Definition cappedBoost (darko : R) : R :=
  Rmin (boostFactor darko) MVP_BONUS_CAP.

(** The value of [salary] when the floor is tested. *)
Definition adjustedSalary (games minutes darko : R) : R :=
  let salary := baseSalary games minutes darko in
  if Rlt_dec 0 darko then salary * (1 + cappedBoost darko)
  else if Rlt_dec darko 0 then salary * (1 - cappedBoost darko)
  else salary.

Definition calculateSalary (games minutes darko : R) : salary :=
  let salary := adjustedSalary games minutes darko in
  if Rlt_dec salary MINIMUM_SALARY_THRESHOLD then MinimumSalary
  else Fixed1 (toFixed1 salary).

Definition calculateSalaryWithAging
    (games minutes baseDarko manualAdjustment agingDelta : R) : salary :=
  let adjustedDarko := baseDarko + manualAdjustment + agingDelta in
  calculateSalary games minutes adjustedDarko.

(** ** components.jsx: the projection pipeline *)

(** A player record of the data set.  [actualSalary] and
    [futureSalaries] may be missing; a season without a contract has no
    entry in [futureSalaries]. *)
Record Player : Type := mkPlayer {
  name : string;
  pos : string;
  age : R;
  darko : R;
  actualSalary : option R;
  futureSalaries : option (gmap string R)
}.

(** The scenario the sliders hold. *)
Record Comparison : Type := mkComparison {
  games : R;
  minutes : R;
  improvement : R
}.

(** The text shown for a projected salary: ["Min"], or the dollar text
    [toFixed(1)] prints for [value].  Which tenth that is stays with the
    printing: the product printed is one of doubles, and a product that
    is a tie in the reals (10.0 * 1.305) need not be one there. *)
Inductive display : Type :=
| Min
| Dollars (value : R).

Record Row : Type := mkRow {
  seasonLabel : string;
  projectedAge : R;
  displaySalary : display;
  rowActualSalary : option R;
  surplus : option R
}.

(** Truthiness of a salary read from the record: present and not zero. *)
Definition has_salary (s : option R) : bool :=
  match s with
  | Some a => nonzero a
  | None => false
  end.

(** What [INFLATION_SCALERS[seasonLabel] || 1] evaluates to: a number,
    or the object an inherited property name finds, which is truthy and
    so kept. *)
Inductive scaler : Type :=
| Multiplier (m : R)
| NotAMultiplier.

Definition inflationScaler (label : string) : scaler :=
  match INFLATION_SCALERS !! label with
  | Some m => Multiplier (if nonzero m then m else 1)
  | None => if inherited label then NotAMultiplier else Multiplier 1
  end.

(** [player.futureSalaries?.[seasonLabel]], for the labels of
    [FUTURE_YEARS], none of which names an inherited property. *)
Definition futureSalary (player : Player) (label : string) : option R :=
  match futureSalaries player with
  | Some contracts => contracts !! label
  | None => None
  end.

Section SalaryProjections.

Variables (player : Player) (games minutes improvement : R).

(** The inner loop of a future row. *)
Definition cumulativeDelta (yearOffset : nat) : completion R :=
  for_loop yearOffset 0
    (fun i cumulativeDelta =>
       try delta <- getAgingDelta (age player + IZR i) (pos player) in
       Normal (cumulativeDelta + delta))
    0.

Definition rawSalary (idx : nat) : completion salary :=
  let yearOffset := S idx in
  try cumulativeDelta <- cumulativeDelta yearOffset in
  let projectedDarko := darko player + improvement + cumulativeDelta in
  Normal (calculateSalary games minutes projectedDarko).

(** The value of [inflatedValue] once the branch on [rawSalary] is
    through. *)
Definition inflatedValue (label : string) (raw : salary) : completion R :=
  match raw with
  | MinimumSalary => Normal 0
  | Fixed1 tenths =>
      match inflationScaler label with
      | Multiplier m => Normal (parseFloat1 tenths * m)
      | NotAMultiplier => Abrupt NotANumber
      end
  end.

(** The callback of [FUTURE_YEARS.map], without its update of
    [runningTotalSurplus]. *)
Definition futureRow (label : string) (idx : nat) : completion Row :=
  let yearOffset := S idx in
  let projectedAge := age player + INR yearOffset in
  try raw <- rawSalary idx in
  try inflated <- inflatedValue label raw in
  let displaySalary :=
    match raw with
    | MinimumSalary => Min
    | Fixed1 _ => Dollars inflated
    end in
  let actual := futureSalary player label in
  let surplus := if has_salary actual
                 then match actual with
                      | Some a => Some (inflated - a)
                      | None => None
                      end
                 else None in
  Normal (mkRow label projectedAge displaySalary actual surplus).

(** [FUTURE_YEARS.map] from index [idx] on, threading
    [runningTotalSurplus] through the callbacks. *)
Fixpoint futureRows (labels : list string) (idx : nat)
    (runningTotalSurplus : R) : completion (R * list Row) :=
  match labels with
  | [] => Normal (runningTotalSurplus, [])
  | label :: labels' =>
      try row <- futureRow label idx in
      let runningTotalSurplus :=
        match surplus row with
        | Some s => runningTotalSurplus + s
        | None => runningTotalSurplus
        end in
      try rest <- futureRows labels' (S idx) runningTotalSurplus in
      Normal (fst rest, row :: snd rest)
  end.

(** [currentProjNum] *)
Definition currentProjNum (currentYearSalary : salary) : R :=
  match currentYearSalary with
  | MinimumSalary => 0
  | Fixed1 tenths => parseFloat1 tenths
  end.

(** The component up to its markup: the running total and the rows.
    [currentYearAgingDelta] is received and only displayed. *)
Definition SalaryProjections (currentYearSalary : salary)
    (currentYearAgingDelta : R) : completion (R * list Row) :=
  let runningTotalSurplus := 0 in
  let runningTotalSurplus :=
    if has_salary (actualSalary player)
    then match actualSalary player with
         | Some a => currentProjNum currentYearSalary - a
         | None => runningTotalSurplus
         end
    else runningTotalSurplus in
  futureRows FUTURE_YEARS 0 runningTotalSurplus.

End SalaryProjections.

(** What [PlayerDetails] computes: the current-season valuation and what
    it hands to [SalaryProjections]. *)
Record Details : Type := mkDetails {
  currentYearSalary : salary;
  totalSurplus : R;
  rows : list Row
}.

Definition PlayerDetails (cfg : SeasonConfig) (comp : Comparison)
    (player : Player) : completion Details :=
  try currentYearAgingDelta <-
    getPartialYearAgingDelta cfg (age player) (pos player) None in
  let adjustedDarkoWithAging :=
    darko player + improvement comp + currentYearAgingDelta in
  let currentYearSalary :=
    calculateSalary (games comp) (minutes comp) adjustedDarkoWithAging in
  try projections <-
    SalaryProjections player (games comp) (minutes comp) (improvement comp)
      currentYearSalary currentYearAgingDelta in
  Normal (mkDetails currentYearSalary (fst projections) (snd projections)).

(** ** Notions the statements are written with *)

Definition complete_table (table : gmap Z R) : Prop :=
  forall a : Z, (20 <= a <= 36)%Z -> is_Some (table !! a).

Ltac each_age a :=
  let H := fresh in
  intros a H;
  assert (a = 20 \/ a = 21 \/ a = 22 \/ a = 23 \/ a = 24 \/ a = 25 \/ a = 26
          \/ a = 27 \/ a = 28 \/ a = 29 \/ a = 30 \/ a = 31 \/ a = 32
          \/ a = 33 \/ a = 34 \/ a = 35 \/ a = 36)%Z as Hcases by lia;
  clear H;
  repeat (destruct Hcases as [-> | Hcases]); try subst a;
  eexists; reflexivity.

(** The sum of [getAgingDelta (age + i) position] over [i] in [[0,n)],
    as the design document writes it. *)
Fixpoint sumOfFullYearDeltas (age : R) (position : string) (n : nat)
    : completion R :=
  match n with
  | O => Normal 0
  | S n' =>
      try sum <- sumOfFullYearDeltas age position n' in
      try delta <- getAgingDelta (age + INR n') position in
      Normal (sum + delta)
  end.

(** [clamp(x, lo, hi)] as the design document uses it. *)
Definition clamp (x lo hi : R) : R :=
  if Rlt_dec x lo then lo else if Rlt_dec hi x then hi else x.

(** The fraction of the season elapsed at a date, before clamping. *)
Definition fractionElapsed (cfg : SeasonConfig) (asOfDate : Date) : R :=
  (IZR (getTime asOfDate) - IZR (getTime (seasonStartDate cfg)))
  / (IZR (getTime (seasonEndDate cfg)) - IZR (getTime (seasonStartDate cfg))).

(** What a row adds to the running total. *)
Definition contribution (row : Row) : R :=
  match surplus row with
  | Some s => s
  | None => 0
  end.

Definition total (xs : list R) : R := foldr Rplus 0 xs.

(** The surplus the current season puts into the running total. *)
Definition currentSurplus (player : Player) (valuation : salary) : R :=
  match actualSalary player with
  | Some a => if nonzero a then currentProjNum valuation - a else 0
  | None => 0
  end.

(** A player and a scenario to try the statements on. *)
Definition example_player : Player :=
  mkPlayer "Example" "sf_pos" 27 (-2.5) (Some 2)
    (Some {[ "2026-27"%string := 2.1 ]}).

Definition example_scenario : Comparison := mkComparison 30 10 0.

(** A player whose valuations are figures, with a salary on record for
    this season and the next. *)
Definition star_player : Player :=
  mkPlayer "Star" "sf_pos" 27 5.0 (Some 50)
    (Some {[ "2026-27"%string := 52 ]}).

Definition star_scenario : Comparison := mkComparison 75 35 0.

(** ** The rest of constants.js and of the utility functions *)

From Stdlib Require DecimalString.

Definition POSITION_LABELS : gmap string string :=
  list_to_map
    [ ("pg_pos", "PG"); ("sg_pos", "SG"); ("sf_pos", "SF");
      ("pf_pos", "PF"); ("c_pos", "C") ]%string.

(** A tier threshold: a number or [-Infinity]. *)
Inductive bound : Type :=
| Finite (r : R)
| MinusInfinity.

Record Tier : Type := mkTier {
  threshold : bound;
  label : string
}.

Definition DARKO_TIERS : list Tier :=
  [ mkTier (Finite 6.0) "MVP Level";
    mkTier (Finite 4.0) "All-NBA";
    mkTier (Finite 2.0) "All-Star";
    mkTier (Finite 1.0) "Quality Starter";
    mkTier (Finite (-0.9)) "Average Player";
    mkTier (Finite (-2.0)) "Bench";
    mkTier MinusInfinity "Replacement Level" ].

(** [darko >= t] *)
Definition reaches (darko : R) (t : bound) : bool :=
  match t with
  | Finite r => if Rle_dec r darko then true else false
  | MinusInfinity => true
  end.

(** The [for ... of] loop of [getDarkoLabel] with its early return. *)
Fixpoint firstTier (tiers : list Tier) (darko : R) : option string :=
  match tiers with
  | [] => None
  | tier :: tiers' =>
      if reaches darko (threshold tier) then Some (label tier)
      else firstTier tiers' darko
  end.

Definition getDarkoLabel (darko : R) : string :=
  match firstTier DARKO_TIERS darko with
  | Some l => l
  | None => "Replacement Level"
  end.

(** [Math.round]: the nearest integer, the larger one on a tie. *)
Definition Math_round (x : R) : Z := Zfloor (x + / 2).

(** How JavaScript prints an integer. *)
Definition string_of_Z (n : Z) : string :=
  DecimalString.NilZero.string_of_int (Z.to_int n).

Definition getSeasonProgressLabel (cfg : SeasonConfig) : string :=
  let progress := getSeasonProgress cfg None in
  (string_of_Z (Math_round (progress * 100)) ++ "%")%string.

(** The decimal with one fractional digit that stands for [tenths >= 0]
    tenths. *)
Definition decimal1 (tenths : Z) : string :=
  (string_of_Z (tenths / 10) ++ "." ++ string_of_Z (tenths mod 10))%string.

(** [x.toFixed(1)] as the text it is; [toFixed1] is its number of
    tenths. *)
Definition toFixed1_text (x : R) : string :=
  ((if Rlt_dec x 0 then "-" else "") ++ decimal1 (Z.abs (toFixed1 x)))%string.

Record SurplusInfo : Type := mkSurplusInfo {
  text : string;
  isPositive : bool
}.

Definition formatSurplus (surplus : R) : SurplusInfo :=
  let sign := if Rlt_dec 0 surplus then "+"%string else ""%string in
  {| text := (sign ++ toFixed1_text surplus ++ "M")%string;
     isPositive := if Rlt_dec 0 surplus then true else false |}.

(** ** Further notions the statements are written with *)

(** Valuations in the order of their worth: the minimum salary below
    every figure. *)
Definition salary_le (a b : salary) : Prop :=
  match a, b with
  | MinimumSalary, _ => True
  | Fixed1 _, MinimumSalary => False
  | Fixed1 x, Fixed1 y => (x <= y)%Z
  end.

(** What a rating is worth per unit of playing time: the wins above
    replacement level with the star bonus or replacement penalty. *)
Definition ratingValue (darko : R) : R :=
  (darko - REPLACEMENT_LEVEL_DARKO)
  * (if Rlt_dec 0 darko then 1 + cappedBoost darko
     else if Rlt_dec darko 0 then 1 - cappedBoost darko
     else 1).

(** One of the three aging tables. *)
Definition is_curve (table : gmap Z R) : Prop :=
  table = guard_curve \/ table = wing_curve \/ table = big_curve.

Ltac split_ages k H :=
  assert (k = 20 \/ k = 21 \/ k = 22 \/ k = 23 \/ k = 24 \/ k = 25 \/ k = 26
          \/ k = 27 \/ k = 28 \/ k = 29 \/ k = 30 \/ k = 31 \/ k = 32
          \/ k = 33 \/ k = 34 \/ k = 35 \/ k = 36)%Z as Hages by lia;
  clear H;
  repeat (destruct Hages as [-> | Hages]); try subst k.

Ltac read_table H := vm_compute in H; injection H as <-.


(** ** components.jsx: the player search and the list of comparisons *)

(** [s.startsWith(t)]: the first step of looking for [t] in [s]. *)
Fixpoint startsWith (s t : string) {struct t} : bool :=
  match t with
  | EmptyString => true
  | String b t' =>
      match s with
      | EmptyString => false
      | String a s' => if bool_decide (a = b) then startsWith s' t' else false
      end
  end.

(** [haystack.includes(needle)] *)
Fixpoint includes (haystack needle : string) : bool :=
  if startsWith haystack needle then true
  else match haystack with
       | EmptyString => false
       | String _ rest => includes rest needle
       end.

Section PlayerSearch.

(** [String.prototype.toLowerCase], which an embedding of byte strings
    cannot give for every script, is left open. *)
Variable toLowerCase : string -> string.

Definition matches (searchTerm : string) (p : Player) : bool :=
  includes (toLowerCase (name p)) (toLowerCase searchTerm).

Definition getFilteredPlayers (playerData : list Player)
    (searchTerm : string) : list Player :=
  if bool_decide (searchTerm = ""%string) then []
  else take 10 (filter (fun p => matches searchTerm p = true) playerData).

End PlayerSearch.

(** What the search drop-down prints for a position:
    [positionLabels[player.pos] || player.pos]. *)
Definition positionText (position : string) : value :=
  or_else (Js.get POSITION_LABELS position) (Str position).

Module App.

(** An element of the [comparisons] state. *)
Record Card : Type := mkCard {
  id : Z;
  selectedPlayer : option Player;
  games : R;
  minutes : R;
  improvement : R;
  searchTerm : string;
  showDropdown : bool
}.

(** The update objects the handlers build: each names some of the
    fields, never [id]. *)
Record Updates : Type := mkUpdates {
  set_selectedPlayer : option (option Player);
  set_games : option R;
  set_minutes : option R;
  set_improvement : option R;
  set_searchTerm : option string;
  set_showDropdown : option bool
}.

Definition no_updates : Updates := mkUpdates None None None None None None.

(** [{ ...c, ...updates }] *)
Definition spread (c : Card) (updates : Updates) : Card :=
  {| id := id c;
     selectedPlayer := default (selectedPlayer c) (set_selectedPlayer updates);
     games := default (games c) (set_games updates);
     minutes := default (minutes c) (set_minutes updates);
     improvement := default (improvement c) (set_improvement updates);
     searchTerm := default (searchTerm c) (set_searchTerm updates);
     showDropdown := default (showDropdown c) (set_showDropdown updates) |}.

Definition newCard (id : Z) : Card :=
  mkCard id None 70 30 0 "" false.

(** The initial [comparisons]. *)
Definition initial : list Card := [ newCard 1 ].

(** [now] is what [Date.now()] returns at the click. *)
Definition addComparison (now : Z) (prev : list Card) : list Card :=
  prev ++ [ newCard now ].

(** The length tested and the list filtered are the same list, the
    state at the click. *)
Definition removeComparison (i : Z) (comparisons : list Card) : list Card :=
  if (1 <? length comparisons)%nat
  then filter (fun c => id c <> i) comparisons
  else comparisons.

Definition updateComparison (i : Z) (updates : Updates) (prev : list Card)
    : list Card :=
  (fun c => if bool_decide (id c = i) then spread c updates else c) <$> prev.

Definition selectPlayer (i : Z) (player : Player) (prev : list Card)
    : list Card :=
  updateComparison i
    {| set_selectedPlayer := Some (Some player);
       set_games := None; set_minutes := None; set_improvement := None;
       set_searchTerm := Some (name player);
       set_showDropdown := Some false |}
    prev.

(** The handlers of a [PlayerCard] showing [comp]. *)
Definition handleSearchChange (comp : Card) (value : string)
    (prev : list Card) : list Card :=
  updateComparison (id comp)
    {| set_selectedPlayer := Some None;
       set_games := None; set_minutes := None; set_improvement := None;
       set_searchTerm := Some value;
       set_showDropdown := Some true |}
    prev.

Definition handleFocus (comp : Card) (prev : list Card) : list Card :=
  updateComparison (id comp)
    {| set_selectedPlayer := None;
       set_games := None; set_minutes := None; set_improvement := None;
       set_searchTerm := None;
       set_showDropdown := Some true |}
    prev.

(** The three sliders of [PlayerDetails]. *)
Inductive slider : Type := Games | Minutes | Improvement.

Definition handleSlider (comp : Card) (field : slider) (value : R)
    (prev : list Card) : list Card :=
  updateComparison (id comp)
    match field with
    | Games => mkUpdates None (Some value) None None None None
    | Minutes => mkUpdates None None (Some value) None None None
    | Improvement => mkUpdates None None None (Some value) None None
    end
    prev.

(** What a card shows. *)
Definition canRemove (comparisons : list Card) : bool :=
  (1 <? length comparisons)%nat.

Definition dropdownShown (comp : Card) : bool :=
  showDropdown comp
  && negb (bool_decide (is_Some (selectedPlayer comp)))
  && negb (bool_decide (searchTerm comp = ""%string)).

Definition detailsShown (comp : Card) : bool :=
  bool_decide (is_Some (selectedPlayer comp)).

(** The value a slider shows for a card. *)
Definition sliderValue (field : slider) (comp : Card) : R :=
  match field with
  | Games => games comp
  | Minutes => minutes comp
  | Improvement => improvement comp
  end.

(** One click or key stroke. *)
Inductive event : Type :=
| Add (now : Z)
| Remove (i : Z)
| Select (i : Z) (player : Player)
| Search (comp : Card) (value : string)
| Focus (comp : Card)
| Slide (comp : Card) (field : slider) (value : R).

Definition handle (e : event) (comparisons : list Card) : list Card :=
  match e with
  | Add now => addComparison now comparisons
  | Remove i => removeComparison i comparisons
  | Select i player => selectPlayer i player comparisons
  | Search comp value => handleSearchChange comp value comparisons
  | Focus comp => handleFocus comp comparisons
  | Slide comp field value => handleSlider comp field value comparisons
  end.

(** The states reached from the initial one, as long as the time stamp
    of an added card is not the [id] of a card already there. *)
Inductive reachable : list Card -> Prop :=
| reachable_initial : reachable initial
| reachable_step (e : event) (comparisons : list Card) :
    reachable comparisons ->
    (forall now, e = Add now -> now ∉ id <$> comparisons) ->
    reachable (handle e comparisons).

End App.

(** ** Properties of the aging model *)

Lemma ageKey_bounds (z : Z) : (20 <= Z.max 20 (Z.min 36 z) <= 36)%Z.
Proof. lia. Qed.

Lemma guard_curve_complete : complete_table guard_curve.
Proof. each_age a. Qed.

Lemma wing_curve_complete : complete_table wing_curve.
Proof. each_age a. Qed.

Lemma big_curve_complete : complete_table big_curve.
Proof. each_age a. Qed.

Lemma AGING_CURVES_inv (category : string) (table : gmap Z R) :
  AGING_CURVES !! category = Some table ->
  (category = "guard"%string /\ table = guard_curve)
  \/ (category = "wing"%string /\ table = wing_curve)
  \/ (category = "big"%string /\ table = big_curve).
Proof.
  unfold AGING_CURVES. cbn [list_to_map foldr uncurry fst snd].
  rewrite !lookup_insert_Some, lookup_empty. intuition (subst; auto); discriminate.
Qed.

Lemma POSITION_CATEGORIES_inv (position category : string) :
  POSITION_CATEGORIES !! position = Some category ->
  (position = "pg_pos" /\ category = "guard")%string
  \/ (position = "sg_pos" /\ category = "guard")%string
  \/ (position = "sf_pos" /\ category = "wing")%string
  \/ (position = "pf_pos" /\ category = "big")%string
  \/ (position = "c_pos" /\ category = "big")%string.
Proof.
  unfold POSITION_CATEGORIES. cbn [list_to_map foldr uncurry fst snd].
  rewrite !lookup_insert_Some, lookup_empty. intuition (subst; auto); discriminate.
Qed.

(** The tables are reached for the five position codes, and for every
    code that names no property at all, own or inherited. *)
Lemma category_of_known (position category : string) :
  POSITION_CATEGORIES !! position = Some category ->
  or_else (Js.get POSITION_CATEGORIES position) (Str DEFAULT_POSITION_CATEGORY)
  = Str category.
Proof.
  intros H. unfold Js.get. rewrite H.
  apply POSITION_CATEGORIES_inv in H.
  destruct H as [[_ ->]|[[_ ->]|[[_ ->]|[[_ ->]|[_ ->]]]]]; reflexivity.
Qed.

Lemma category_of_unknown (position : string) :
  POSITION_CATEGORIES !! position = None ->
  inherited position = false ->
  or_else (Js.get POSITION_CATEGORIES position) (Str DEFAULT_POSITION_CATEGORY)
  = Str "wing".
Proof. intros H1 H2. unfold Js.get. rewrite H1, H2. reflexivity. Qed.

Lemma category_of_inherited (position : string) :
  inherited position = true ->
  or_else (Js.get POSITION_CATEGORIES position) (Str DEFAULT_POSITION_CATEGORY)
  = Inherited position.
Proof.
  intros H. unfold Js.get.
  destruct (POSITION_CATEGORIES !! position) as [category|] eqn:E.
  - apply POSITION_CATEGORIES_inv in E.
    destruct E as [[-> _]|[[-> _]|[[-> _]|[[-> _]|[-> _]]]]]; discriminate H.
  - rewrite H. reflexivity.
Qed.

Lemma getAgingDelta_in_table (age : R) (position category : string)
    (table : gmap Z R) :
  or_else (Js.get POSITION_CATEGORIES position) (Str DEFAULT_POSITION_CATEGORY)
  = Str category ->
  AGING_CURVES !! category = Some table ->
  complete_table table ->
  exists delta,
    table !! Z.max 20 (Z.min 36 (Zfloor age)) = Some delta
    /\ getAgingDelta age position = Normal delta.
Proof.
  intros Hc Ht Hfull.
  destruct (Hfull _ (ageKey_bounds (Zfloor age))) as [delta Hd].
  exists delta. split; [exact Hd|].
  unfold getAgingDelta. rewrite Hc. unfold AGING_CURVES_get. rewrite Ht.
  unfold curve_at. rewrite Hd. reflexivity.
Qed.

Lemma AGING_CURVES_complete (category : string) (table : gmap Z R) :
  AGING_CURVES !! category = Some table -> complete_table table.
Proof.
  intros H. apply AGING_CURVES_inv in H.
  destruct H as [[_ ->]|[[_ ->]|[_ ->]]];
    auto using guard_curve_complete, wing_curve_complete, big_curve_complete.
Qed.

Lemma category_has_curve (position category : string) :
  POSITION_CATEGORIES !! position = Some category ->
  is_Some (AGING_CURVES !! category).
Proof.
  intros H. apply POSITION_CATEGORIES_inv in H.
  destruct H as [[_ ->]|[[_ ->]|[[_ ->]|[[_ ->]|[_ ->]]]]];
    eexists; reflexivity.
Qed.

(** A position code that is not the name of a property inherited from
    [Object.prototype] always yields a number. *)
Lemma getAgingDelta_regular (age : R) (position : string) :
  inherited position = false ->
  exists delta, getAgingDelta age position = Normal delta.
Proof.
  intros Hi.
  destruct (POSITION_CATEGORIES !! position) as [category|] eqn:E.
  - destruct (category_has_curve _ _ E) as [table Ht].
    destruct (getAgingDelta_in_table age position category table)
      as (delta & _ & H);
      eauto using category_of_known, AGING_CURVES_complete.
  - destruct (getAgingDelta_in_table age position "wing" wing_curve)
      as (delta & _ & H);
      eauto using category_of_unknown, wing_curve_complete.
Qed.

Lemma getAgingDelta_inherited (age : R) (position : string) :
  inherited position = true ->
  getAgingDelta age position = Abrupt TypeError.
Proof.
  intros H. unfold getAgingDelta.
  rewrite (category_of_inherited _ H). reflexivity.
Qed.

(** The result only depends on the clamped integer age. *)
Lemma getAgingDelta_ageKey (age age' : R) (position : string) :
  Z.max 20 (Z.min 36 (Zfloor age)) = Z.max 20 (Z.min 36 (Zfloor age')) ->
  getAgingDelta age position = getAgingDelta age' position.
Proof. intros H. unfold getAgingDelta. rewrite H. reflexivity. Qed.

Lemma Zfloor_below (x : R) (z : Z) : x < IZR z -> (Zfloor x < z)%Z.
Proof.
  intros H. destruct (Zfloor_bound x) as [L _].
  apply lt_IZR. lra.
Qed.

(** C7.  Each category's table holds every integer age from 20 to 36;
    for a position code of any of the three categories and every age the
    lookup yields the table's number at the clamped age; ages below 20
    and above 36 give the boundary values, as in the two examples. *)
Theorem aging_table_completeness :
  (forall (category : string) (table : gmap Z R),
      AGING_CURVES !! category = Some table ->
      forall a : Z, (20 <= a <= 36)%Z -> is_Some (table !! a))
  /\ (forall category : string,
         category ∈ ["guard"; "wing"; "big"]%string ->
         is_Some (AGING_CURVES !! category)
         /\ exists position, POSITION_CATEGORIES !! position = Some category)
  /\ (forall (position category : string) (age : R),
         POSITION_CATEGORIES !! position = Some category ->
         exists table delta,
           AGING_CURVES !! category = Some table
           /\ table !! Z.max 20 (Z.min 36 (Zfloor age)) = Some delta
           /\ getAgingDelta age position = Normal delta)
  /\ (forall (position : string) (age : R),
         (age < 20 -> getAgingDelta age position = getAgingDelta 20 position)
         /\ (36 < age -> getAgingDelta age position = getAgingDelta 36 position))
  /\ getAgingDelta 15 "guard" = getAgingDelta 20 "guard"
  /\ getAgingDelta 50 "big" = getAgingDelta 36 "big"
  /\ getAgingDelta 15 "pg_pos" = Normal 0.60
  /\ getAgingDelta 50 "c_pos" = Normal (-1.45).
Proof.
  split; [exact AGING_CURVES_complete|].
  split.
  { intros category H.
    repeat (apply elem_of_cons in H; destruct H as [->|H]);
      [| | |inversion H].
    - split; [eexists; reflexivity | exists "pg_pos"%string; reflexivity].
    - split; [eexists; reflexivity | exists "sf_pos"%string; reflexivity].
    - split; [eexists; reflexivity | exists "c_pos"%string; reflexivity]. }
  split.
  { intros position category age H.
    destruct (category_has_curve _ _ H) as [table Ht].
    destruct (getAgingDelta_in_table age position category table)
      as (delta & Hd & Hg);
      eauto 6 using category_of_known, AGING_CURVES_complete. }
  assert (Hclamp : forall (position : string) (age : R),
             (age < 20 -> getAgingDelta age position = getAgingDelta 20 position)
             /\ (36 < age -> getAgingDelta age position = getAgingDelta 36 position)).
  { intros position age. split; intros H; apply getAgingDelta_ageKey.
    - pose proof (Zfloor_below age 20 H). rewrite (ZfloorZ 20). lia.
    - assert (36 <= Zfloor age)%Z by (apply Zfloor_lub; lra).
      rewrite (ZfloorZ 36). lia. }
  split; [exact Hclamp|].
  split; [apply Hclamp; lra|].
  split; [apply Hclamp; lra|].
  split.
  - rewrite (proj1 (Hclamp "pg_pos"%string 15)) by lra.
    unfold getAgingDelta. rewrite (ZfloorZ 20). reflexivity.
  - rewrite (proj2 (Hclamp "c_pos"%string 50)) by lra.
    unfold getAgingDelta. rewrite (ZfloorZ 36). reflexivity.
Qed.

Lemma aging_table_completeness_witness :
  (exists table delta,
      AGING_CURVES !! "guard"%string = Some table
      /\ table !! Z.max 20 (Z.min 36 (Zfloor 25)) = Some delta
      /\ getAgingDelta 25 "sg_pos" = Normal delta)
  /\ getAgingDelta 19.5 "pf_pos" = getAgingDelta 20 "pf_pos"
  /\ is_Some (guard_curve !! 31%Z).
Proof.
  destruct aging_table_completeness as (Hall & _ & Hknown & Hclamp & _).
  split; [apply (Hknown "sg_pos"%string "guard"%string 25); reflexivity|].
  split; [apply Hclamp; lra|].
  apply (Hall "guard"%string guard_curve); [reflexivity | lia].
Defined.

(** C9, at a failing input.  [POSITION_CATEGORIES] is an object literal,
    so ["constructor"] finds the function inherited from
    [Object.prototype]; it is truthy, the default is not taken, no curve
    is found under it, and reading the age from [undefined] throws. *)
Theorem unknown_position_constructor_throws :
  POSITION_CATEGORIES !! "constructor"%string = None
  /\ getAgingDelta 25 "constructor" = Abrupt TypeError
  /\ getAgingDelta 25 "sf_pos" = Normal 0.10.
Proof.
  split; [reflexivity|]. split; [reflexivity|].
  unfold getAgingDelta. rewrite (ZfloorZ 25). reflexivity.
Qed.

(** The default category is taken for every other unknown code. *)
Lemma unknown_position_defaults_to_wing (age : R) (position : string) :
  POSITION_CATEGORIES !! position = None ->
  inherited position = false ->
  getAgingDelta age position = getAgingDelta age "sf_pos".
Proof.
  intros H1 H2. unfold getAgingDelta.
  rewrite (category_of_unknown _ H1 H2). reflexivity.
Qed.

(** ** The accumulation loops *)

Lemma for_loop_last {A : Type} (body : Z -> A -> completion A) (n : nat) :
  forall (i : Z) (acc : A),
    for_loop (S n) i body acc
    = try acc' <- for_loop n i body acc in body (i + Z.of_nat n)%Z acc'.
Proof.
  induction n as [|n IH]; intros i acc.
  - cbn. rewrite Z.add_0_r. destruct (body i acc); reflexivity.
  - change (for_loop (S (S n)) i body acc)
      with (try acc' <- body i acc in for_loop (S n) (i + 1)%Z body acc').
    change (for_loop (S n) i body acc)
      with (try acc' <- body i acc in for_loop n (i + 1)%Z body acc').
    destruct (body i acc) as [acc'|e]; cbn [bind]; [|reflexivity].
    rewrite IH. replace (i + 1 + Z.of_nat n)%Z with (i + Z.of_nat (S n))%Z by lia.
    reflexivity.
Qed.

Lemma aging_loop_sum (age : R) (position : string) (n : nat) :
  for_loop n 0
    (fun i cumulativeDelta =>
       try delta <- getAgingDelta (age + IZR i) position in
       Normal (cumulativeDelta + delta))
    0
  = sumOfFullYearDeltas age position n.
Proof.
  induction n as [|n IH]; [reflexivity|].
  rewrite for_loop_last, IH. cbn [sumOfFullYearDeltas].
  rewrite Z.add_0_l, <- INR_IZR_INZ. reflexivity.
Qed.

Lemma sumOfFullYearDeltas_regular (age : R) (position : string) (n : nat) :
  inherited position = false ->
  exists sum, sumOfFullYearDeltas age position n = Normal sum.
Proof.
  intros H. induction n as [|n [sum IH]]; [exists 0; reflexivity|].
  destruct (getAgingDelta_regular (age + INR n) position H) as [delta Hd].
  exists (sum + delta). cbn [sumOfFullYearDeltas]. rewrite IH. cbn [bind].
  rewrite Hd. reflexivity.
Qed.

(** C6.  Without the partial current year, the cumulative delta is the
    sum of the full-year deltas at [age], [age + 1], ... ; the season
    configuration, hence the season progress, plays no part in it; the
    loop written out in the projection rows computes the same value; and
    the value is a number for every position code that reaches a table. *)
Theorem cumulative_delta_decomposition
    (cfg : SeasonConfig) (currentAge : R) (position : string) (n : nat) :
  getCumulativeAgingDelta cfg currentAge position (Z.of_nat n) false
  = sumOfFullYearDeltas currentAge position n
  /\ (forall cfg' : SeasonConfig,
         getCumulativeAgingDelta cfg' currentAge position (Z.of_nat n) false
         = getCumulativeAgingDelta cfg currentAge position (Z.of_nat n) false)
  /\ (forall player : Player,
         age player = currentAge -> pos player = position ->
         cumulativeDelta player n
         = getCumulativeAgingDelta cfg currentAge position (Z.of_nat n) false)
  /\ (inherited position = false ->
      exists sum,
        getCumulativeAgingDelta cfg currentAge position (Z.of_nat n) false
        = Normal sum).
Proof.
  assert (E : forall c : SeasonConfig,
             getCumulativeAgingDelta c currentAge position (Z.of_nat n) false
             = sumOfFullYearDeltas currentAge position n).
  { intros c. unfold getCumulativeAgingDelta. cbn [bind].
    rewrite Nat2Z.id. apply aging_loop_sum. }
  split; [apply E|].
  split; [intros cfg'; rewrite !E; reflexivity|].
  split.
  - intros player <- <-. rewrite E. apply aging_loop_sum.
  - intros H. rewrite E. apply sumOfFullYearDeltas_regular, H.
Qed.

Lemma cumulative_delta_decomposition_witness :
  cumulativeDelta (mkPlayer "A" "sf_pos" 25 1 None None) 3
  = getCumulativeAgingDelta SEASON_CONFIG 25 "sf_pos" (Z.of_nat 3) false
  /\ exists sum,
       getCumulativeAgingDelta SEASON_CONFIG 25 "sf_pos" (Z.of_nat 3) false
       = Normal sum.
Proof.
  destruct (cumulative_delta_decomposition SEASON_CONFIG 25 "sf_pos" 3)
    as (_ & _ & Hloop & Hnum).
  split.
  - apply (Hloop (mkPlayer "A" "sf_pos" 25 1 None None)); reflexivity.
  - apply Hnum. reflexivity.
Defined.

(** ** The season clock *)

Lemma Rmax_Rmin_clamp (x : R) : Rmax 0 (Rmin 1 x) = clamp x 0 1.
Proof.
  unfold clamp, Rmin. destruct (Rle_dec 1 x); unfold Rmax;
    destruct (Rle_dec 0 _); destruct (Rlt_dec x 0); destruct (Rlt_dec 1 x);
    lra.
Qed.

Lemma clamp_monotone (x y : R) : x <= y -> clamp x 0 1 <= clamp y 0 1.
Proof.
  intros H. unfold clamp.
  repeat match goal with
         | |- context [Rlt_dec ?a ?b] => destruct (Rlt_dec a b)
         end; lra.
Qed.

Lemma clamp_range (x : R) : 0 <= clamp x 0 1 <= 1.
Proof.
  unfold clamp.
  repeat match goal with
         | |- context [Rlt_dec ?a ?b] => destruct (Rlt_dec a b)
         end; lra.
Qed.

Section ClockOfAnySeason.

Variable cfg : SeasonConfig.

Let seasonStart : R := IZR (getTime (seasonStartDate cfg)).
Let seasonEnd : R := IZR (getTime (seasonEndDate cfg)).

Hypothesis season_nonempty : seasonStart < seasonEnd.

Lemma getSeasonProgress_clamp (asOfDate : Date) :
  getSeasonProgress cfg (Some asOfDate)
  = clamp (fractionElapsed cfg asOfDate) 0 1.
Proof. unfold getSeasonProgress. cbn [default]. apply Rmax_Rmin_clamp. Qed.

Lemma fractionElapsed_monotone (d1 d2 : Date) :
  (getTime d1 <= getTime d2)%Z ->
  fractionElapsed cfg d1 <= fractionElapsed cfg d2.
Proof.
  intros H. apply IZR_le in H.
  pose proof season_nonempty as Hne. unfold seasonStart, seasonEnd in Hne.
  unfold fractionElapsed, Rdiv.
  apply Rmult_le_compat_r; [|lra].
  apply Rlt_le, Rinv_0_lt_compat. lra.
Qed.

Lemma fractionElapsed_before (d : Date) :
  (getTime d <= getTime (seasonStartDate cfg))%Z ->
  fractionElapsed cfg d <= 0.
Proof.
  intros H. apply IZR_le in H.
  pose proof season_nonempty as Hne. unfold seasonStart, seasonEnd in Hne.
  unfold fractionElapsed, Rdiv.
  set (duration := IZR (getTime (seasonEndDate cfg))
                   - IZR (getTime (seasonStartDate cfg))).
  assert (0 < / duration) by (apply Rinv_0_lt_compat; unfold duration; lra).
  nra.
Qed.

Lemma fractionElapsed_after (d : Date) :
  (getTime (seasonEndDate cfg) <= getTime d)%Z ->
  1 <= fractionElapsed cfg d.
Proof.
  intros H. apply IZR_le in H.
  pose proof season_nonempty as Hne. unfold seasonStart, seasonEnd in Hne.
  unfold fractionElapsed.
  set (duration := IZR (getTime (seasonEndDate cfg))
                   - IZR (getTime (seasonStartDate cfg))).
  assert (0 < duration) by (unfold duration; lra).
  apply (Rmult_le_reg_r duration); [assumption|].
  unfold Rdiv. rewrite Rmult_assoc, Rinv_l by lra.
  unfold duration. lra.
Qed.

End ClockOfAnySeason.

Lemma SEASON_CONFIG_times :
  getTime (seasonStartDate SEASON_CONFIG) = 1761091200000%Z
  /\ getTime (seasonEndDate SEASON_CONFIG) = 1776038400000%Z
  /\ getTime (dataAsOfDate SEASON_CONFIG) = 1769558400000%Z.
Proof. repeat split; reflexivity. Qed.

Lemma SEASON_CONFIG_nonempty :
  IZR (getTime (seasonStartDate SEASON_CONFIG))
  < IZR (getTime (seasonEndDate SEASON_CONFIG)).
Proof. apply IZR_lt. reflexivity. Qed.

(** C8.  With the configured season, the progress of a date is the
    elapsed fraction clamped to [[0,1]]: 0 up to the season start, 1 from
    the season end on, between 0 and 1 everywhere, and monotone in the
    date.  A call without a date is a call at the data refresh date. *)
Theorem season_progress_clamp_monotone :
  let seasonStart := IZR (getTime (seasonStartDate SEASON_CONFIG)) in
  let seasonEnd := IZR (getTime (seasonEndDate SEASON_CONFIG)) in
  (forall asOfDate : Date,
      getSeasonProgress SEASON_CONFIG (Some asOfDate)
      = clamp ((IZR (getTime asOfDate) - seasonStart)
               / (seasonEnd - seasonStart)) 0 1
      /\ 0 <= getSeasonProgress SEASON_CONFIG (Some asOfDate) <= 1
      /\ (IZR (getTime asOfDate) <= seasonStart ->
          getSeasonProgress SEASON_CONFIG (Some asOfDate) = 0)
      /\ (seasonEnd <= IZR (getTime asOfDate) ->
          getSeasonProgress SEASON_CONFIG (Some asOfDate) = 1))
  /\ (forall d1 d2 : Date,
         (getTime d1 <= getTime d2)%Z ->
         getSeasonProgress SEASON_CONFIG (Some d1)
         <= getSeasonProgress SEASON_CONFIG (Some d2))
  /\ getSeasonProgress SEASON_CONFIG None
     = getSeasonProgress SEASON_CONFIG (Some (dataAsOfDate SEASON_CONFIG))
  /\ seasonStart = 1761091200000 /\ seasonEnd = 1776038400000.
Proof.
  intros seasonStart seasonEnd.
  pose proof SEASON_CONFIG_nonempty as Hne.
  split.
  { intros d. rewrite (getSeasonProgress_clamp SEASON_CONFIG).
    fold (fractionElapsed SEASON_CONFIG d).
    split; [reflexivity|]. split; [apply clamp_range|]. split; intros H.
    - pose proof (fractionElapsed_before SEASON_CONFIG Hne d
                    ltac:(apply le_IZR; exact H)) as Hf.
      unfold clamp. destruct (Rlt_dec _ 0); [reflexivity|].
      destruct (Rlt_dec 1 _); lra.
    - pose proof (fractionElapsed_after SEASON_CONFIG Hne d
                    ltac:(apply le_IZR; exact H)) as Hf.
      unfold clamp. destruct (Rlt_dec _ 0); [lra|].
      destruct (Rlt_dec 1 _); lra. }
  split.
  { intros d1 d2 H. rewrite !(getSeasonProgress_clamp SEASON_CONFIG).
    apply clamp_monotone, fractionElapsed_monotone; assumption. }
  split; [reflexivity|].
  destruct SEASON_CONFIG_times as (Hs & He & _).
  unfold seasonStart, seasonEnd. rewrite Hs, He. split; reflexivity.
Qed.

Lemma season_progress_clamp_monotone_witness :
  getSeasonProgress SEASON_CONFIG (Some (Date_of_ymd 2025 10 1)) = 0
  /\ getSeasonProgress SEASON_CONFIG (Some (Date_of_ymd 2026 5 1)) = 1
  /\ getSeasonProgress SEASON_CONFIG (Some (Date_of_ymd 2025 12 25))
     <= getSeasonProgress SEASON_CONFIG (Some (Date_of_ymd 2026 1 28)).
Proof.
  destruct season_progress_clamp_monotone as (Hdate & Hmono & _).
  split; [|split].
  - apply (Hdate (Date_of_ymd 2025 10 1)). apply IZR_le. vm_compute. discriminate.
  - apply (Hdate (Date_of_ymd 2026 5 1)). apply IZR_le. vm_compute. discriminate.
  - apply Hmono. vm_compute. discriminate.
Defined.

(** ** The valuation engine *)

Lemma Math_pow_nonneg (x y : R) : 0 <= Math_pow x y.
Proof.
  unfold Math_pow. destruct (Req_dec_T x 0); [lra|].
  unfold Rpower. left. apply exp_pos.
Qed.

Lemma Math_pow_ge_1 (x y : R) : 1 <= x -> 0 <= y -> 1 <= Math_pow x y.
Proof.
  intros Hx Hy. unfold Math_pow. destruct (Req_dec_T x 0); [lra|].
  rewrite <- (Rpower_O x) by lra. apply Rle_Rpower; lra.
Qed.

Lemma Math_pow_lt_1 (x y : R) : 0 <= x < 1 -> 0 < y -> Math_pow x y < 1.
Proof.
  intros Hx Hy. unfold Math_pow. destruct (Req_dec_T x 0); [lra|].
  unfold Rpower. rewrite <- exp_0. apply exp_increasing.
  assert (ln x < 0) by (rewrite <- ln_1; apply ln_increasing; lra).
  nra.
Qed.

Lemma cappedBoost_range (darko : R) : 0 <= cappedBoost darko <= 0.10.
Proof.
  unfold cappedBoost, boostFactor, MVP_BONUS_CAP.
  pose proof (Math_pow_nonneg (Rabs darko / MVP_BONUS_DIVISOR)
                MVP_BONUS_EXPONENT) as Hp.
  unfold Rmin. destruct (Rle_dec _ _); lra.
Qed.

(** From four points of rating on, in either direction, the cap is
    reached. *)
Lemma cappedBoost_capped (darko : R) : 4 <= Rabs darko -> cappedBoost darko = 0.10.
Proof.
  intros H. unfold cappedBoost, boostFactor, MVP_BONUS_CAP.
  assert (1 <= Math_pow (Rabs darko / MVP_BONUS_DIVISOR) MVP_BONUS_EXPONENT)
    as Hp.
  { apply Math_pow_ge_1; unfold MVP_BONUS_DIVISOR, MVP_BONUS_EXPONENT; lra. }
  unfold Rmin. destruct (Rle_dec _ _); lra.
Qed.

Lemma toFixed1_nearest (x : R) :
  0 <= x ->
  parseFloat1 (toFixed1 x) - 1 / 20 <= x < parseFloat1 (toFixed1 x) + 1 / 20.
Proof.
  intros H. unfold toFixed1, parseFloat1.
  destruct (Rlt_dec x 0); [lra|].
  pose proof (Zfloor_bound (10 * x + / 2)). lra.
Qed.

Lemma toFixed1_monotone (x y : R) :
  0 <= x -> x <= y -> (toFixed1 x <= toFixed1 y)%Z.
Proof.
  intros Hx Hxy. unfold toFixed1.
  destruct (Rlt_dec x 0); [lra|]. destruct (Rlt_dec y 0); [lra|].
  apply Zfloor_le. lra.
Qed.

Lemma toFixed1_tenths (t : Z) : (0 <= t)%Z -> toFixed1 (IZR t / 10) = t.
Proof.
  intros H. apply IZR_le in H. unfold toFixed1.
  destruct (Rlt_dec _ 0); [lra|]. apply Zfloor_eq. lra.
Qed.

(** C1.  Below the threshold of 3.0 the valuation is the minimum-salary
    sentinel; from the threshold on it is the tenth nearest to the
    computed salary; and a number it returns is never below 3.0. *)
Theorem valuation_floor (games minutes darko : R) :
  let salary := adjustedSalary games minutes darko in
  (salary < 3 -> calculateSalary games minutes darko = MinimumSalary)
  /\ (3 <= salary ->
      exists tenths : Z,
        calculateSalary games minutes darko = Fixed1 tenths
        /\ tenths = toFixed1 salary
        /\ IZR tenths / 10 - 1 / 20 <= salary < IZR tenths / 10 + 1 / 20)
  /\ (forall tenths : Z,
         calculateSalary games minutes darko = Fixed1 tenths ->
         3 <= IZR tenths / 10).
Proof.
  intros salary. unfold calculateSalary. fold salary.
  unfold MINIMUM_SALARY_THRESHOLD.
  replace 3.0 with 3 by lra.
  destruct (Rlt_dec salary 3) as [Hlt|Hge].
  - split; [reflexivity|]. split; [lra|]. discriminate.
  - split; [lra|]. split.
    + intros _. exists (toFixed1 salary). split; [reflexivity|].
      split; [reflexivity|]. apply toFixed1_nearest. lra.
    + intros tenths [= <-].
      assert (30 <= toFixed1 salary)%Z as H30.
      { rewrite <- (toFixed1_tenths 30) by lia.
        apply toFixed1_monotone; lra. }
      apply IZR_le in H30. lra.
Qed.

(** C2.  The boost is [min(0.10, (|rating| / 4)^1.2 * 0.10)]; it is the
    same for [rating] and [- rating], at most 0.10, and multiplies the
    base salary as [1 + boost] for a positive and [1 - boost] for a
    negative rating; a rating of exactly 0 leaves the base salary as it
    is. *)
Theorem boost_symmetry_and_bound (games minutes rating : R) :
  0 < rating ->
  cappedBoost rating
  = Rmin 0.10 (Math_pow (Rabs rating / 4) 1.2 * 0.10)
  /\ cappedBoost (- rating) = cappedBoost rating
  /\ adjustedSalary games minutes rating
     = baseSalary games minutes rating * (1 + cappedBoost rating)
  /\ adjustedSalary games minutes (- rating)
     = baseSalary games minutes (- rating) * (1 - cappedBoost rating)
  /\ (forall darko : R,
         cappedBoost darko
         = Rmin 0.10 (Math_pow (Rabs darko / 4) 1.2 * 0.10)
         /\ cappedBoost darko <= 0.10)
  /\ adjustedSalary games minutes 0 = baseSalary games minutes 0
  /\ (forall darko : R,
         baseSalary games minutes darko
         = games * minutes / 1475 * (darko + 3) * 4.32).
Proof.
  intros Hpos.
  assert (Hdef : forall darko : R,
             cappedBoost darko
             = Rmin 0.10 (Math_pow (Rabs darko / 4) 1.2 * 0.10)).
  { intros darko. unfold cappedBoost, boostFactor.
    unfold MVP_BONUS_CAP, MVP_BONUS_DIVISOR, MVP_BONUS_EXPONENT.
    apply Rmin_comm. }
  assert (Hsym : cappedBoost (- rating) = cappedBoost rating).
  { unfold cappedBoost, boostFactor. rewrite Rabs_Ropp. reflexivity. }
  split; [apply Hdef|]. split; [exact Hsym|].
  split; [|split; [|split; [|split]]].
  - unfold adjustedSalary. destruct (Rlt_dec 0 rating); [reflexivity|lra].
  - unfold adjustedSalary. destruct (Rlt_dec 0 (- rating)); [lra|].
    destruct (Rlt_dec (- rating) 0); [|lra]. rewrite Hsym. reflexivity.
  - intros darko. split; [apply Hdef | apply cappedBoost_range].
  - unfold adjustedSalary. destruct (Rlt_dec 0 0); [lra|]. reflexivity.
  - intros darko. unfold baseSalary.
    unfold MINUTES_BASELINE, REPLACEMENT_LEVEL_DARKO, WIN_COST_MILLIONS. lra.
Qed.

Lemma boost_symmetry_and_bound_witness :
  cappedBoost (- 2) = cappedBoost 2
  /\ adjustedSalary 60 20 2 = baseSalary 60 20 2 * (1 + cappedBoost 2)
  /\ adjustedSalary 60 20 (- 2) = baseSalary 60 20 (- 2) * (1 - cappedBoost 2).
Proof.
  destruct (boost_symmetry_and_bound 60 20 2 ltac:(lra))
    as (_ & Hsym & Hup & Hdown & _).
  auto.
Defined.

Lemma adjustedSalary_replacement_example :
  adjustedSalary 30 10 (-2.5) < 3.
Proof.
  unfold adjustedSalary.
  destruct (Rlt_dec 0 (-2.5)); [lra|]. destruct (Rlt_dec (-2.5) 0); [|lra].
  pose proof (cappedBoost_range (-2.5)).
  unfold baseSalary, MINUTES_BASELINE, REPLACEMENT_LEVEL_DARKO,
    WIN_COST_MILLIONS.
  lra.
Qed.

Lemma baseSalary_star_example :
  baseSalary 75 35 5.0 = 75 * 35 / 1475 * 8.0 * 4.32.
Proof.
  unfold baseSalary, MINUTES_BASELINE, REPLACEMENT_LEVEL_DARKO,
    WIN_COST_MILLIONS.
  lra.
Qed.

Lemma adjustedSalary_star_example :
  adjustedSalary 75 35 5.0 = 75 * 35 / 1475 * 8.0 * 4.32 * (1 + 0.10).
Proof.
  unfold adjustedSalary. destruct (Rlt_dec 0 5.0); [|lra].
  rewrite cappedBoost_capped
    by (rewrite Rabs_pos_eq; lra).
  unfold baseSalary, MINUTES_BASELINE, REPLACEMENT_LEVEL_DARKO,
    WIN_COST_MILLIONS.
  lra.
Qed.

Lemma calculateSalary_star_example :
  calculateSalary 75 35 5.0 = Fixed1 677.
Proof.
  unfold calculateSalary. rewrite adjustedSalary_star_example.
  unfold MINIMUM_SALARY_THRESHOLD.
  destruct (Rlt_dec _ 3.0); [lra|].
  f_equal. unfold toFixed1. destruct (Rlt_dec _ 0); [lra|].
  apply Zfloor_eq. lra.
Qed.

Lemma valuation_floor_witness :
  calculateSalary 30 10 (-2.5) = MinimumSalary
  /\ 3 <= IZR 677 / 10.
Proof.
  split.
  - apply (valuation_floor 30 10 (-2.5)).
    apply adjustedSalary_replacement_example.
  - apply (valuation_floor 75 35 5.0). apply calculateSalary_star_example.
Defined.

(** C3, as the code has it.  For 75 games of 35 minutes at a rating of
    5.0 the wins above replacement are [75 * 35 / 1475 * 8.0], between
    14.237 and 14.238; the base salary is that times 4.32, between 61.50
    and 61.51; the boost is capped at 0.10; the adjusted salary lies
    between 67.65 and 67.66 and the valuation returned is 67.7. *)
Theorem star_example_valuation :
  baseSalary 75 35 5.0 = 75 * 35 / 1475 * 8.0 * 4.32
  /\ 14.237 < 75 * 35 / 1475 * 8.0 < 14.238
  /\ 61.50 < baseSalary 75 35 5.0 < 61.51
  /\ boostFactor 5.0 >= 0.10
  /\ cappedBoost 5.0 = 0.10
  /\ 67.65 < adjustedSalary 75 35 5.0 < 67.66
  /\ calculateSalary 75 35 5.0 = Fixed1 677.
Proof.
  pose proof baseSalary_star_example as Hb.
  split; [exact Hb|]. split; [lra|]. split; [rewrite Hb; lra|].
  split.
  { unfold boostFactor, MVP_BONUS_CAP.
    assert (1 <= Math_pow (Rabs 5.0 / MVP_BONUS_DIVISOR) MVP_BONUS_EXPONENT).
    { apply Math_pow_ge_1; unfold MVP_BONUS_DIVISOR, MVP_BONUS_EXPONENT;
        rewrite ?Rabs_pos_eq; lra. }
    lra. }
  split; [apply cappedBoost_capped; rewrite Rabs_pos_eq; lra|].
  split; [rewrite adjustedSalary_star_example; lra|].
  apply calculateSalary_star_example.
Qed.

(** C3 as written fails: the valuation returned is not 67.6, and the
    base salary is not 61.48 to two decimals. *)
Lemma star_example_is_not_67_6 :
  ~ (61.475 <= baseSalary 75 35 5.0 < 61.485
     \/ calculateSalary 75 35 5.0 = Fixed1 676).
Proof.
  intros [H|H].
  - rewrite baseSalary_star_example in H. lra.
  - rewrite calculateSalary_star_example in H. discriminate H.
Qed.

(** ** The projection pipeline *)

Lemma nonzero_true (x : R) : x <> 0 -> nonzero x = true.
Proof. intros H. unfold nonzero. destruct (Req_dec_T x 0); tauto. Qed.

Lemma nonzero_false (x : R) : nonzero x = false -> x = 0.
Proof. unfold nonzero. destruct (Req_dec_T x 0); [auto|discriminate]. Qed.

Lemma inflationScaler_unmapped (label : string) :
  INFLATION_SCALERS !! label = None ->
  inherited label = false ->
  inflationScaler label = Multiplier 1.
Proof. intros H Hi. unfold inflationScaler. rewrite H, Hi. reflexivity. Qed.

Lemma inflationScaler_inherited (label : string) :
  INFLATION_SCALERS !! label = None ->
  inherited label = true ->
  inflationScaler label = NotAMultiplier.
Proof. intros H Hi. unfold inflationScaler. rewrite H, Hi. reflexivity. Qed.

Lemma inflationScaler_mapped (label : string) (m : R) :
  INFLATION_SCALERS !! label = Some m -> m <> 0 ->
  inflationScaler label = Multiplier m.
Proof.
  intros H Hm. unfold inflationScaler. rewrite H, (nonzero_true _ Hm).
  reflexivity.
Qed.

Lemma inflationScaler_regular (label : string) :
  inherited label = false -> exists m, inflationScaler label = Multiplier m.
Proof.
  intros H. unfold inflationScaler.
  destruct (INFLATION_SCALERS !! label); [eauto|]. rewrite H. eauto.
Qed.

Lemma inflatedValue_regular (label : string) (raw : salary) :
  inherited label = false -> exists v, inflatedValue label raw = Normal v.
Proof.
  intros H. destruct raw as [|tenths]; cbn; [eauto|].
  destruct (inflationScaler_regular label H) as [m ->]. eauto.
Qed.

Lemma inflatedValue_inv (label : string) (raw : salary) (v : R) :
  inflatedValue label raw = Normal v ->
  match raw with
  | MinimumSalary => v = 0
  | Fixed1 tenths =>
      exists m, inflationScaler label = Multiplier m
                /\ v = IZR tenths / 10 * m
  end.
Proof.
  destruct raw as [|tenths]; cbn.
  - intros [= <-]. reflexivity.
  - destruct (inflationScaler label) as [m|]; [|discriminate].
    intros [= <-]. exists m. split; reflexivity.
Qed.

(** Every projected season has a multiplier, and it is the one applied. *)
Lemma FUTURE_YEARS_scalers (j : nat) (label : string) :
  FUTURE_YEARS !! j = Some label ->
  exists m, INFLATION_SCALERS !! label = Some m
            /\ 1 < m /\ inflationScaler label = Multiplier m.
Proof.
  intros H.
  assert (Hm : forall l m, INFLATION_SCALERS !! l = Some m -> 1 < m ->
               exists m, INFLATION_SCALERS !! l = Some m
                         /\ 1 < m /\ inflationScaler l = Multiplier m).
  { intros l m Hl Hlt. exists m. split; [exact Hl|]. split; [exact Hlt|].
    apply inflationScaler_mapped; [exact Hl|lra]. }
  destruct j as [|[|[|[|[|j]]]]]; try discriminate H; injection H as <-.
  - apply (Hm _ 1.074); [reflexivity|lra].
  - apply (Hm _ 1.127); [reflexivity|lra].
  - apply (Hm _ 1.184); [reflexivity|lra].
  - apply (Hm _ 1.240); [reflexivity|lra].
  - apply (Hm _ 1.305); [reflexivity|lra].
Qed.

Lemma FUTURE_YEARS_regular :
  Forall (fun label => inherited label = false) FUTURE_YEARS.
Proof. repeat constructor. Qed.

Section Pipeline.

Variables (player : Player) (games minutes improvement : R).

Lemma cumulativeDelta_sum (yearOffset : nat) :
  cumulativeDelta player yearOffset
  = sumOfFullYearDeltas (age player) (pos player) yearOffset.
Proof. apply aging_loop_sum. Qed.

Lemma rawSalary_sum (idx : nat) :
  rawSalary player games minutes improvement idx
  = try sum <- sumOfFullYearDeltas (age player) (pos player) (S idx) in
    Normal (calculateSalary games minutes
              (darko player + improvement + sum)).
Proof. unfold rawSalary. rewrite cumulativeDelta_sum. reflexivity. Qed.

Lemma futureRow_inv (label : string) (idx : nat) (row : Row) :
  futureRow player games minutes improvement label idx = Normal row ->
  exists (raw : salary) (inflated : R),
    rawSalary player games minutes improvement idx = Normal raw
    /\ inflatedValue label raw = Normal inflated
    /\ seasonLabel row = label
    /\ projectedAge row = age player + INR (S idx)
    /\ displaySalary row
       = match raw with
         | MinimumSalary => Min
         | Fixed1 _ => Dollars inflated
         end
    /\ rowActualSalary row = futureSalary player label
    /\ surplus row
       = match futureSalary player label with
         | Some a => if nonzero a then Some (inflated - a) else None
         | None => None
         end.
Proof.
  unfold futureRow.
  destruct (rawSalary player games minutes improvement idx) as [raw|e];
    cbn [bind]; [|discriminate].
  destruct (inflatedValue label raw) as [inflated|e] eqn:Hinflated;
    cbn [bind]; [|discriminate].
  intros [= <-]. exists raw, inflated. cbn.
  split; [reflexivity|]. split; [exact Hinflated|].
  repeat split; try reflexivity.
  destruct (futureSalary player label) as [a|]; reflexivity.
Qed.

Lemma futureRows_inv (labels : list string) :
  forall (idx : nat) (running tot : R) (rs : list Row),
    futureRows player games minutes improvement labels idx running
    = Normal (tot, rs) ->
    length rs = length labels
    /\ tot = running + total (contribution <$> rs)
    /\ forall (j : nat) (label : string),
         labels !! j = Some label ->
         exists row,
           rs !! j = Some row
           /\ futureRow player games minutes improvement label (idx + j)
              = Normal row.
Proof.
  induction labels as [|label labels IH]; intros idx running tot rs.
  - cbn. intros [= <- <-]. cbn. split; [reflexivity|].
    split; [lra|]. intros j l H. discriminate H.
  - cbn [futureRows].
    destruct (futureRow player games minutes improvement label idx)
      as [row|e] eqn:Hrow; cbn [bind]; [|discriminate].
    destruct (futureRows player games minutes improvement labels (S idx) _)
      as [[tot' rs']|e] eqn:Hrest; cbn [bind]; [|discriminate].
    cbn [fst snd]. intros [= <- <-].
    destruct (IH _ _ _ _ Hrest) as (Hlen & Htot & Hnth).
    split; [cbn; rewrite Hlen; reflexivity|].
    split.
    + rewrite Htot.
      change (contribution <$> row :: rs')
        with (contribution row :: (contribution <$> rs')).
      unfold total. cbn [foldr].
      set (rest := foldr Rplus 0 (contribution <$> rs')).
      unfold contribution. destruct (surplus row); lra.
    + intros [|j] l Hl.
      * injection Hl as <-. exists row. rewrite Nat.add_0_r. auto.
      * destruct (Hnth j l Hl) as (r & Hr & Hf). exists r.
        replace (idx + S j)%nat with (S idx + j)%nat by lia. auto.
Qed.

Hypothesis regular_position : inherited (pos player) = false.

Lemma futureRow_completes (label : string) (idx : nat) :
  inherited label = false ->
  exists row,
    futureRow player games minutes improvement label idx = Normal row.
Proof.
  intros Hlabel.
  destruct (sumOfFullYearDeltas_regular (age player) (pos player) (S idx)
              regular_position) as [sum Hsum].
  unfold futureRow. rewrite rawSalary_sum, Hsum. cbn [bind].
  destruct (inflatedValue_regular label
              (calculateSalary games minutes
                 (darko player + improvement + sum)) Hlabel) as [v ->].
  cbn [bind]. eauto.
Qed.

Lemma futureRows_completes (labels : list string) :
  Forall (fun label => inherited label = false) labels ->
  forall (idx : nat) (running : R),
  exists result,
    futureRows player games minutes improvement labels idx running
    = Normal result.
Proof.
  induction 1 as [|label labels Hlabel _ IH]; intros idx running.
  - cbn. eauto.
  - cbn [futureRows].
    destruct (futureRow_completes label idx Hlabel) as [row ->]. cbn [bind].
    destruct (IH (S idx)
                match surplus row with
                | Some s => running + s
                | None => running
                end) as [rest ->].
    cbn [bind]. eauto.
Qed.

End Pipeline.

Lemma PlayerDetails_inv (cfg : SeasonConfig) (comp : Comparison)
    (player : Player) (details : Details) :
  PlayerDetails cfg comp player = Normal details ->
  exists fullYearDelta : R,
    getAgingDelta (age player) (pos player) = Normal fullYearDelta
    /\ currentYearSalary details
       = calculateSalary (games comp) (minutes comp)
           (darko player + improvement comp
            + fullYearDelta * getSeasonProgress cfg None)
    /\ futureRows player (games comp) (minutes comp) (improvement comp)
         FUTURE_YEARS 0 (currentSurplus player (currentYearSalary details))
       = Normal (totalSurplus details, rows details).
Proof.
  unfold PlayerDetails, getPartialYearAgingDelta.
  destruct (getAgingDelta (age player) (pos player)) as [delta|e];
    cbn [bind]; [|discriminate].
  unfold SalaryProjections.
  match goal with
  | |- context [futureRows _ _ _ _ _ _ ?r] =>
      replace r with
        (currentSurplus player
           (calculateSalary (games comp) (minutes comp)
              (darko player + improvement comp
               + delta * getSeasonProgress cfg None)))
  end.
  2:{ unfold currentSurplus, has_salary.
      destruct (actualSalary player) as [a|]; [|reflexivity].
      destruct (nonzero a); reflexivity. }
  destruct (futureRows _ _ _ _ _ _ _) as [[tot rs]|e] eqn:Hrows;
    cbn [bind]; [|discriminate].
  intros [= <-]. cbn. exists delta. auto.
Qed.

Lemma PlayerDetails_completes (cfg : SeasonConfig) (comp : Comparison)
    (player : Player) :
  inherited (pos player) = false ->
  exists details, PlayerDetails cfg comp player = Normal details.
Proof.
  intros Hreg. unfold PlayerDetails, getPartialYearAgingDelta.
  destruct (getAgingDelta_regular (age player) (pos player) Hreg)
    as [delta ->].
  cbn [bind]. unfold SalaryProjections.
  match goal with
  | |- context [futureRows ?p ?g ?m ?i ?l ?n ?r] =>
      destruct (futureRows_completes p g m i Hreg l FUTURE_YEARS_regular n r)
        as [res ->]
  end.
  cbn [bind]. eauto.
Qed.

Lemma PlayerDetails_throws (cfg : SeasonConfig) (comp : Comparison)
    (player : Player) :
  inherited (pos player) = true ->
  PlayerDetails cfg comp player = Abrupt TypeError.
Proof.
  intros H. unfold PlayerDetails, getPartialYearAgingDelta.
  rewrite (getAgingDelta_inherited _ _ H). reflexivity.
Qed.

Lemma futureRows_labels (player : Player) (games minutes improvement : R)
    (labels : list string) (idx : nat) (running tot : R) (rs : list Row) :
  futureRows player games minutes improvement labels idx running
  = Normal (tot, rs) ->
  seasonLabel <$> rs = labels.
Proof.
  intros H. apply futureRows_inv in H. destruct H as (Hlen & _ & Hnth).
  apply list_eq. intros j. rewrite list_lookup_fmap.
  destruct (labels !! j) as [label|] eqn:E.
  - destruct (Hnth j label E) as (row & -> & Hrow).
    apply futureRow_inv in Hrow.
    destruct Hrow as (raw & inflated & _ & _ & Hlabel & _).
    cbn. rewrite Hlabel. reflexivity.
  - apply lookup_ge_None in E. rewrite <- Hlen in E.
    apply lookup_ge_None in E. rewrite E. reflexivity.
Qed.

(** The rows do not depend on the total they are accumulated into. *)
Lemma futureRows_rows (player : Player) (games minutes improvement : R)
    (labels : list string) (idx : nat) (r1 r2 t1 t2 : R)
    (rs1 rs2 : list Row) :
  futureRows player games minutes improvement labels idx r1
  = Normal (t1, rs1) ->
  futureRows player games minutes improvement labels idx r2
  = Normal (t2, rs2) ->
  rs1 = rs2.
Proof.
  intros H1 H2. apply futureRows_inv in H1, H2.
  destruct H1 as (L1 & _ & N1), H2 as (L2 & _ & N2).
  apply list_eq. intros j.
  destruct (labels !! j) as [label|] eqn:E.
  - destruct (N1 j label E) as (row1 & -> & F1).
    destruct (N2 j label E) as (row2 & -> & F2).
    congruence.
  - apply lookup_ge_None in E.
    rewrite (proj2 (lookup_ge_None rs1 j)) by lia.
    rewrite (proj2 (lookup_ge_None rs2 j)) by lia.
    reflexivity.
Qed.

Lemma PlayerDetails_row (cfg : SeasonConfig) (comp : Comparison)
    (player : Player) (details : Details) (j : nat) (label : string) :
  PlayerDetails cfg comp player = Normal details ->
  FUTURE_YEARS !! j = Some label ->
  exists row,
    rows details !! j = Some row
    /\ futureRow player (games comp) (minutes comp) (improvement comp) label j
       = Normal row.
Proof.
  intros H Hl. apply PlayerDetails_inv in H.
  destruct H as (_ & _ & _ & Hrows).
  apply futureRows_inv in Hrows. destruct Hrows as (_ & _ & Hnth).
  exact (Hnth j label Hl).
Qed.

Lemma getAgingDelta_wing_27 (x : R) :
  x = 27 -> getAgingDelta x "sf_pos" = Normal 0.00.
Proof.
  intros ->. unfold getAgingDelta. rewrite (ZfloorZ 27). reflexivity.
Qed.

Lemma getAgingDelta_wing_at (x : R) (k : Z) (delta : R) :
  x = IZR k ->
  wing_curve !! Z.max 20 (Z.min 36 k) = Some delta ->
  getAgingDelta x "sf_pos" = Normal delta.
Proof.
  intros -> H. unfold getAgingDelta. rewrite ZfloorZ.
  change (AGING_CURVES_get
            (or_else (Js.get POSITION_CATEGORIES "sf_pos")
               (Str DEFAULT_POSITION_CATEGORY)))
    with (Curve wing_curve).
  unfold curve_at. rewrite H. reflexivity.
Qed.

(** The valuation of 75 games of 35 minutes at a rating where the boost
    is capped. *)
Lemma calculateSalary_star (x : R) (tenths : Z) :
  4 <= x ->
  IZR tenths <= 10 * (75 * 35 / 1475 * (x + 3) * 4.32 * 1.1) + / 2
             < IZR tenths + 1 ->
  (30 <= tenths)%Z ->
  calculateSalary 75 35 x = Fixed1 tenths.
Proof.
  intros Hx Hround H30. apply IZR_le in H30.
  assert (adjustedSalary 75 35 x = 75 * 35 / 1475 * (x + 3) * 4.32 * 1.1)
    as Hs.
  { unfold adjustedSalary. destruct (Rlt_dec 0 x); [|lra].
    rewrite cappedBoost_capped by (rewrite Rabs_pos_eq; lra).
    unfold baseSalary, MINUTES_BASELINE, REPLACEMENT_LEVEL_DARKO,
      WIN_COST_MILLIONS.
    lra. }
  unfold calculateSalary. rewrite Hs. unfold MINIMUM_SALARY_THRESHOLD.
  destruct (Rlt_dec _ 3.0); [lra|].
  f_equal. unfold toFixed1. destruct (Rlt_dec _ 0); [lra|].
  apply Zfloor_eq. exact Hround.
Qed.

Lemma star_player_rawSalary :
  rawSalary star_player 75 35 0 0 = Normal (Fixed1 677)
  /\ rawSalary star_player 75 35 0 1 = Normal (Fixed1 677)
  /\ rawSalary star_player 75 35 0 2 = Normal (Fixed1 672).
Proof.
  assert (H27 : getAgingDelta (age star_player + INR 0) (pos star_player)
                = Normal 0.00)
    by (apply (getAgingDelta_wing_at _ 27); [cbn; lra | reflexivity]).
  assert (H28 : getAgingDelta (age star_player + INR 1) (pos star_player)
                = Normal 0.00)
    by (apply (getAgingDelta_wing_at _ 28); [cbn; lra | reflexivity]).
  assert (H29 : getAgingDelta (age star_player + INR 2) (pos star_player)
                = Normal (-0.05))
    by (apply (getAgingDelta_wing_at _ 29); [cbn; lra | reflexivity]).
  rewrite !rawSalary_sum. cbn [sumOfFullYearDeltas bind].
  rewrite H27. cbn [bind]. rewrite H28. cbn [bind]. rewrite H29. cbn [bind].
  split; [|split]; f_equal; apply calculateSalary_star; cbn; lra || lia.
Qed.

Lemma star_player_current (cfg : SeasonConfig) (details : Details) :
  PlayerDetails cfg star_scenario star_player = Normal details ->
  currentYearSalary details = Fixed1 677.
Proof.
  intros Hd.
  destruct (PlayerDetails_inv _ _ _ _ Hd) as (delta & Hdelta & Hcur & _).
  rewrite (getAgingDelta_wing_27 (age star_player) eq_refl
           : getAgingDelta (age star_player) (pos star_player)
             = Normal 0.00) in Hdelta.
  injection Hdelta as <-. rewrite Hcur.
  apply calculateSalary_star; cbn; lra || lia.
Qed.

(** C4.  Future season [k] (1 to 5) is valued at
    [calculateSalary (games, minutes, rating + adjustment + sum)] where
    [sum] adds the full-year deltas at [age], ..., [age + k - 1] and holds
    no partial-year term; a numeric valuation is multiplied by the
    season's inflation multiplier, 1 standing in where the label names
    no property at all; the rows are the same whatever the season
    progress; the partial-year delta, the full-year delta times the
    season progress, enters the current-season valuation only. *)
Theorem projection_valuation
    (cfg : SeasonConfig) (comp : Comparison) (player : Player) (k : nat) :
  (1 <= k <= 5)%nat ->
  rawSalary player (games comp) (minutes comp) (improvement comp) (k - 1)
  = (try sum <- sumOfFullYearDeltas (age player) (pos player) k in
     Normal (calculateSalary (games comp) (minutes comp)
               (darko player + improvement comp + sum)))
  /\ (forall details : Details,
         PlayerDetails cfg comp player = Normal details ->
         exists (fullYearDelta sum multiplier : R) (label : string) (row : Row),
           getAgingDelta (age player) (pos player) = Normal fullYearDelta
           /\ currentYearSalary details
              = calculateSalary (games comp) (minutes comp)
                  (darko player + improvement comp
                   + fullYearDelta * getSeasonProgress cfg None)
           /\ sumOfFullYearDeltas (age player) (pos player) k = Normal sum
           /\ FUTURE_YEARS !! (k - 1)%nat = Some label
           /\ INFLATION_SCALERS !! label = Some multiplier
           /\ rows details !! (k - 1)%nat = Some row
           /\ seasonLabel row = label
           /\ projectedAge row = age player + INR k
           /\ match calculateSalary (games comp) (minutes comp)
                      (darko player + improvement comp + sum) with
              | MinimumSalary => displaySalary row = Min
              | Fixed1 tenths =>
                  displaySalary row = Dollars (IZR tenths / 10 * multiplier)
                  /\ forall a : R,
                       futureSalary player label = Some a -> a <> 0 ->
                       surplus row = Some (IZR tenths / 10 * multiplier - a)
              end)
  /\ (forall (cfg' : SeasonConfig) (details details' : Details),
         PlayerDetails cfg comp player = Normal details ->
         PlayerDetails cfg' comp player = Normal details' ->
         rows details' = rows details)
  /\ (forall (label : string) (tenths : Z),
         INFLATION_SCALERS !! label = None ->
         inherited label = false ->
         inflatedValue label (Fixed1 tenths) = Normal (IZR tenths / 10 * 1))
  /\ (inherited (pos player) = false ->
      exists details, PlayerDetails cfg comp player = Normal details).
Proof.
  intros Hk. destruct k as [|idx]; [lia|].
  replace (S idx - 1)%nat with idx by lia.
  split; [apply rawSalary_sum|].
  split.
  { intros details Hd.
    assert (exists label, FUTURE_YEARS !! idx = Some label) as [label Hl].
    { apply lookup_lt_is_Some. cbn. lia. }
    destruct (FUTURE_YEARS_scalers _ _ Hl) as (m & Hm & _ & Hscale).
    destruct (PlayerDetails_row _ _ _ _ _ _ Hd Hl) as (row & Hrow & Hf).
    destruct (PlayerDetails_inv _ _ _ _ Hd) as (delta & Hdelta & Hcur & _).
    destruct (futureRow_inv _ _ _ _ _ _ _ Hf)
      as (raw & inflated & Hraw & Hinf & Hlabel & Hage & Hdisp & _ & Hsur).
    rewrite rawSalary_sum in Hraw.
    destruct (sumOfFullYearDeltas (age player) (pos player) (S idx))
      as [sum|e]; cbn [bind] in Hraw; [|discriminate].
    injection Hraw as <-.
    exists delta, sum, m, label, row.
    repeat (split; [assumption || reflexivity|]).
    apply inflatedValue_inv in Hinf.
    destruct (calculateSalary (games comp) (minutes comp)
                (darko player + improvement comp + sum)) as [|tenths];
      [exact Hdisp|].
    destruct Hinf as (m' & Hm' & ->).
    assert (m' = m) as -> by congruence.
    split; [exact Hdisp|].
    intros a Ha Hnz. rewrite Hsur, Ha, (nonzero_true _ Hnz). reflexivity. }
  split.
  { intros cfg' d d' Hd Hd'.
    apply PlayerDetails_inv in Hd, Hd'.
    destruct Hd as (_ & _ & _ & H), Hd' as (_ & _ & _ & H').
    exact (futureRows_rows _ _ _ _ _ _ _ _ _ _ _ _ H' H). }
  split.
  { intros label tenths H Hi. unfold inflatedValue, parseFloat1.
    rewrite (inflationScaler_unmapped _ H Hi). reflexivity. }
  apply PlayerDetails_completes.
Qed.

Lemma projection_valuation_witness :
  exists (details : Details) (row : Row),
    PlayerDetails SEASON_CONFIG star_scenario star_player = Normal details
    /\ currentYearSalary details = Fixed1 677
    /\ rows details !! 0%nat = Some row
    /\ seasonLabel row = "2026-27"%string
    /\ displaySalary row = Dollars (IZR 677 / 10 * 1.074)
    /\ surplus row = Some (IZR 677 / 10 * 1.074 - 52).
Proof.
  destruct (projection_valuation SEASON_CONFIG star_scenario
              star_player 1 ltac:(lia))
    as (Hraw & Hrow & _ & _ & Hruns).
  destruct (Hruns eq_refl) as [details Hd].
  destruct (Hrow details Hd)
    as (delta & sum & m & label & row
        & _ & _ & Hsum & Hl & Hm & Hr & Hs & _ & Hval).
  injection Hl as <-.
  assert (m = 1.074) as -> by (vm_compute in Hm; injection Hm as <-; lra).
  pose proof (proj1 star_player_rawSalary) as Hfig.
  change (rawSalary star_player 75 35 0 0)
    with (rawSalary star_player (games star_scenario) (minutes star_scenario)
            (improvement star_scenario) (1 - 1)) in Hfig.
  rewrite Hraw, Hsum in Hfig. cbn [bind] in Hfig. injection Hfig as Hfig.
  assert (calculateSalary (games star_scenario) (minutes star_scenario)
            (darko star_player + improvement star_scenario + sum)
          = Fixed1 677) as Hfig' by exact Hfig.
  rewrite Hfig' in Hval. destruct Hval as [Hdisp Hsur].
  exists details, row.
  split; [exact Hd|].
  split; [exact (star_player_current _ _ Hd)|].
  split; [exact Hr|]. split; [exact Hs|]. split; [exact Hdisp|].
  apply Hsur; [reflexivity | lra].
Defined.

(** C5.  The running total is the current season's surplus plus the sum
    of the surpluses of the five projected rows.  A season with a salary
    on record (present and not zero) has the surplus value minus salary,
    the value being the figure valued (times the season's multiplier in
    a projected row) or 0 for the minimum salary; a season without one
    has no surplus in its row and adds nothing. *)
Theorem surplus_aggregation
    (cfg : SeasonConfig) (comp : Comparison) (player : Player)
    (details : Details) :
  PlayerDetails cfg comp player = Normal details ->
  seasonLabel <$> rows details = FUTURE_YEARS
  /\ length (rows details) = 5%nat
  /\ (exists current : R,
         totalSurplus details
         = current + total (contribution <$> rows details)
         /\ (actualSalary player = None -> current = 0)
         /\ (forall a : R,
                actualSalary player = Some a ->
                (a = 0 -> current = 0)
                /\ (a <> 0 ->
                    match currentYearSalary details with
                    | MinimumSalary => current = 0 - a
                    | Fixed1 tenths => current = IZR tenths / 10 - a
                    end)))
  /\ (forall (j : nat) (row : Row),
         rows details !! j = Some row ->
         exists (label : string) (multiplier : R) (raw : salary),
           FUTURE_YEARS !! j = Some label
           /\ INFLATION_SCALERS !! label = Some multiplier
           /\ rawSalary player (games comp) (minutes comp) (improvement comp) j
              = Normal raw
           /\ let value :=
                match raw with
                | MinimumSalary => 0
                | Fixed1 tenths => IZR tenths / 10 * multiplier
                end in
              let contract :=
                match futureSalaries player with
                | Some contracts => contracts !! label
                | None => None
                end in
              rowActualSalary row = contract
              /\ match contract with
                 | Some a =>
                     (a = 0 -> surplus row = None /\ contribution row = 0)
                     /\ (a <> 0 ->
                         surplus row = Some (value - a)
                         /\ contribution row = value - a)
                 | None => surplus row = None /\ contribution row = 0
                 end).
Proof.
  intros Hd.
  destruct (PlayerDetails_inv _ _ _ _ Hd) as (delta & _ & _ & Hrows).
  pose proof (futureRows_labels _ _ _ _ _ _ _ _ _ Hrows) as Hlabels.
  destruct (futureRows_inv _ _ _ _ _ _ _ _ _ Hrows) as (Hlen & Htot & Hnth).
  split; [exact Hlabels|]. split; [exact Hlen|]. split.
  - exists (currentSurplus player (currentYearSalary details)).
    split; [exact Htot|]. unfold currentSurplus.
    split; [intros ->; reflexivity|].
    intros a ->. split.
    + intros ->. unfold nonzero. destruct (Req_dec_T 0 0); tauto.
    + intros Hnz. rewrite (nonzero_true _ Hnz).
      destruct (currentYearSalary details); reflexivity.
  - intros j row Hrow.
    assert (exists label, FUTURE_YEARS !! j = Some label) as [label Hl].
    { apply lookup_lt_is_Some. rewrite <- Hlen.
      apply lookup_lt_is_Some. eauto. }
    destruct (FUTURE_YEARS_scalers _ _ Hl) as (m & Hm & _ & Hscale).
    destruct (Hnth j label Hl) as (row' & Hrow' & Hf).
    rewrite Nat.add_0_l in Hf.
    assert (row' = row) as -> by congruence.
    destruct (futureRow_inv _ _ _ _ _ _ _ Hf)
      as (raw & inflated & Hraw & Hinf & _ & _ & _ & Hact & Hsur).
    exists label, m, raw.
    split; [exact Hl|]. split; [exact Hm|]. split; [exact Hraw|].
    assert (inflated = match raw with
                       | MinimumSalary => 0
                       | Fixed1 tenths => IZR tenths / 10 * m
                       end) as ->.
    { apply inflatedValue_inv in Hinf. destruct raw as [|tenths];
        [exact Hinf|].
      destruct Hinf as (m' & Hm' & ->). congruence. }
    cbv zeta. unfold futureSalary in Hact, Hsur.
    split; [exact Hact|]. unfold contribution. rewrite Hsur.
    destruct (match futureSalaries player with
              | Some contracts => contracts !! label
              | None => None
              end) as [a|]; [|auto].
    split.
    + intros ->. unfold nonzero. destruct (Req_dec_T 0 0); tauto.
    + intros Hnz. rewrite (nonzero_true _ Hnz). auto.
Qed.

Lemma surplus_aggregation_witness :
  exists (details : Details) (row : Row),
    PlayerDetails SEASON_CONFIG star_scenario star_player = Normal details
    /\ rows details !! 0%nat = Some row
    /\ surplus row = Some (IZR 677 / 10 * 1.074 - 52)
    /\ totalSurplus details
       = (IZR 677 / 10 - 50) + total (contribution <$> rows details).
Proof.
  destruct (PlayerDetails_completes SEASON_CONFIG star_scenario
              star_player eq_refl) as [details Hd].
  destruct (surplus_aggregation SEASON_CONFIG star_scenario
              star_player details Hd)
    as (_ & Hlen & (current & Htot & _ & Hcur) & Hrows).
  assert (exists row, rows details !! 0%nat = Some row) as [row Hrow]
      by (apply lookup_lt_is_Some; lia).
  exists details, row. split; [exact Hd|]. split; [exact Hrow|].
  split.
  - destruct (Hrows 0%nat row Hrow)
      as (label & m & raw & Hl & Hm & Hraw & _ & Hsur).
    injection Hl as <-.
    assert (m = 1.074) as -> by (vm_compute in Hm; injection Hm as <-; lra).
    change (rawSalary star_player (games star_scenario)
              (minutes star_scenario) (improvement star_scenario) 0)
      with (rawSalary star_player 75 35 0 0) in Hraw.
    rewrite (proj1 star_player_rawSalary) in Hraw. injection Hraw as <-.
    change (match futureSalaries star_player with
            | Some contracts => contracts !! "2026-27"%string
            | None => None
            end) with (Some 52) in Hsur.
    apply Hsur. lra.
  - rewrite Htot. f_equal.
    destruct (Hcur 50 eq_refl) as [_ Hfig].
    rewrite (star_player_current _ _ Hd) in Hfig. apply Hfig. lra.
Defined.

(** C10.  A season valued at the minimum-salary sentinel counts as zero
    against a salary on record: the current season adds [0 - salary] to
    the running total, and a projected row has the surplus
    [0 - salary]. *)
Theorem sentinel_valued_at_zero
    (cfg : SeasonConfig) (comp : Comparison) (player : Player)
    (details : Details) (a : R) :
  PlayerDetails cfg comp player = Normal details ->
  a <> 0 ->
  (currentYearSalary details = MinimumSalary ->
   actualSalary player = Some a ->
   totalSurplus details = (0 - a) + total (contribution <$> rows details))
  /\ (forall (j : nat) (label : string) (row : Row),
         FUTURE_YEARS !! j = Some label ->
         rows details !! j = Some row ->
         rawSalary player (games comp) (minutes comp) (improvement comp) j
         = Normal MinimumSalary ->
         futureSalary player label = Some a ->
         displaySalary row = Min
         /\ surplus row = Some (0 - a)
         /\ contribution row = 0 - a).
Proof.
  intros Hd Hnz. split.
  - intros Hmin Ha.
    destruct (PlayerDetails_inv _ _ _ _ Hd) as (delta & _ & _ & Hrows).
    destruct (futureRows_inv _ _ _ _ _ _ _ _ _ Hrows) as (_ & Htot & _).
    rewrite Htot. unfold currentSurplus.
    rewrite Ha, (nonzero_true _ Hnz), Hmin. reflexivity.
  - intros j label row Hl Hrow Hraw Ha.
    destruct (PlayerDetails_row _ _ _ _ _ _ Hd Hl) as (row' & Hrow' & Hf).
    assert (row' = row) as -> by congruence.
    destruct (futureRow_inv _ _ _ _ _ _ _ Hf)
      as (raw & inflated & Hraw' & Hinf & _ & _ & Hdisp & _ & Hsur).
    assert (raw = MinimumSalary) as -> by congruence.
    apply inflatedValue_inv in Hinf. subst inflated.
    unfold contribution. rewrite Hsur, Ha, (nonzero_true _ Hnz). auto.
Qed.

Lemma calculateSalary_replacement_example (x : R) :
  x = -2.5 -> calculateSalary 30 10 x = MinimumSalary.
Proof.
  intros ->. unfold calculateSalary, MINIMUM_SALARY_THRESHOLD.
  pose proof adjustedSalary_replacement_example.
  destruct (Rlt_dec _ 3.0); [reflexivity|lra].
Qed.

Lemma sentinel_valued_at_zero_witness :
  exists details row,
    PlayerDetails SEASON_CONFIG example_scenario example_player
    = Normal details
    /\ totalSurplus details = (0 - 2) + total (contribution <$> rows details)
    /\ rows details !! 0%nat = Some row
    /\ surplus row = Some (0 - 2.1).
Proof.
  destruct (PlayerDetails_completes SEASON_CONFIG example_scenario
              example_player eq_refl) as [details Hd].
  destruct (PlayerDetails_inv _ _ _ _ Hd) as (delta & Hdelta & Hcur & _).
  destruct (PlayerDetails_row _ _ _ _ 0%nat "2026-27"%string Hd eq_refl)
    as (row & Hrow & _).
  rewrite (getAgingDelta_wing_27 (age example_player) eq_refl
           : getAgingDelta (age example_player) (pos example_player)
             = Normal 0.00) in Hdelta.
  injection Hdelta as <-.
  rewrite calculateSalary_replacement_example in Hcur
    by (cbn; lra).
  exists details, row. split; [exact Hd|].
  split.
  - apply (sentinel_valued_at_zero SEASON_CONFIG example_scenario
             example_player details 2 Hd); [lra | exact Hcur | reflexivity].
  - split; [exact Hrow|].
    apply (proj2 (sentinel_valued_at_zero SEASON_CONFIG example_scenario
                    example_player details 2.1 Hd ltac:(lra))
             0%nat "2026-27"%string row eq_refl Hrow); [|reflexivity].
    rewrite rawSalary_sum. cbn [sumOfFullYearDeltas bind].
    rewrite (getAgingDelta_wing_27 (age example_player + INR 0)
               ltac:(cbn; lra)
             : getAgingDelta (age example_player + INR 0)
                 (pos example_player) = Normal 0.00).
    cbn [bind]. rewrite calculateSalary_replacement_example by (cbn; lra).
    reflexivity.
Defined.

(** ** Rating tiers *)

(** X1.  The tier label is read off seven consecutive rating ranges:
    from 6 up, from 4, from 2, from 1, from -0.9, from -2, and
    everything below -2; the fallback after the loop is never needed. *)
Theorem darko_label_tiers (darko : R) :
  (6 <= darko -> getDarkoLabel darko = "MVP Level"%string)
  /\ (4 <= darko < 6 -> getDarkoLabel darko = "All-NBA"%string)
  /\ (2 <= darko < 4 -> getDarkoLabel darko = "All-Star"%string)
  /\ (1 <= darko < 2 -> getDarkoLabel darko = "Quality Starter"%string)
  /\ (-0.9 <= darko < 1 -> getDarkoLabel darko = "Average Player"%string)
  /\ (-2 <= darko < -0.9 -> getDarkoLabel darko = "Bench"%string)
  /\ (darko < -2 -> getDarkoLabel darko = "Replacement Level"%string)
  /\ exists l, firstTier DARKO_TIERS darko = Some l.
Proof.
  unfold getDarkoLabel, DARKO_TIERS, firstTier, reaches.
  cbn [threshold label].
  destruct (Rle_dec 6.0 darko); [repeat split; intros; try lra; eauto|].
  destruct (Rle_dec 4.0 darko); [repeat split; intros; try lra; eauto|].
  destruct (Rle_dec 2.0 darko); [repeat split; intros; try lra; eauto|].
  destruct (Rle_dec 1.0 darko); [repeat split; intros; try lra; eauto|].
  destruct (Rle_dec (-0.9) darko); [repeat split; intros; try lra; eauto|].
  destruct (Rle_dec (-2.0) darko); repeat split; intros; try lra; eauto.
Qed.

Lemma darko_label_tiers_witness :
  getDarkoLabel 5.5 = "All-NBA"%string
  /\ getDarkoLabel 1.5 = "Quality Starter"%string
  /\ getDarkoLabel (-2.5) = "Replacement Level"%string.
Proof.
  split; [|split].
  - apply (darko_label_tiers 5.5). lra.
  - apply (darko_label_tiers 1.5). lra.
  - apply (darko_label_tiers (-2.5)). lra.
Defined.

(** ** Aging within and across seasons *)

Lemma getSeasonProgress_range (cfg : SeasonConfig) (asOfDate : option Date) :
  0 <= getSeasonProgress cfg asOfDate <= 1.
Proof.
  unfold getSeasonProgress. rewrite Rmax_Rmin_clamp. apply clamp_range.
Qed.

Lemma getSeasonProgress_default (cfg : SeasonConfig) (asOfDate : option Date) :
  getSeasonProgress cfg asOfDate
  = getSeasonProgress cfg (Some (default (dataAsOfDate cfg) asOfDate)).
Proof. destruct asOfDate; reflexivity. Qed.

Lemma getSeasonProgress_before (cfg : SeasonConfig) (d : Date) :
  IZR (getTime (seasonStartDate cfg)) < IZR (getTime (seasonEndDate cfg)) ->
  (getTime d <= getTime (seasonStartDate cfg))%Z ->
  getSeasonProgress cfg (Some d) = 0.
Proof.
  intros Hne H. rewrite (getSeasonProgress_clamp cfg).
  pose proof (fractionElapsed_before cfg Hne d H).
  unfold clamp. destruct (Rlt_dec _ 0); [reflexivity|].
  destruct (Rlt_dec 1 _); lra.
Qed.

Lemma getSeasonProgress_after (cfg : SeasonConfig) (d : Date) :
  IZR (getTime (seasonStartDate cfg)) < IZR (getTime (seasonEndDate cfg)) ->
  (getTime (seasonEndDate cfg) <= getTime d)%Z ->
  getSeasonProgress cfg (Some d) = 1.
Proof.
  intros Hne H. rewrite (getSeasonProgress_clamp cfg).
  pose proof (fractionElapsed_after cfg Hne d H).
  unfold clamp. destruct (Rlt_dec _ 0); [lra|].
  destruct (Rlt_dec 1 _); lra.
Qed.

(** X2.  The partial-year delta is a share of the full-year delta: of
    the same sign and no larger in size, nothing up to the season start
    and the whole of it from the season end on. *)
Theorem partial_year_delta_between
    (cfg : SeasonConfig) (age : R) (position : string)
    (asOfDate : option Date) (fullYearDelta : R) :
  IZR (getTime (seasonStartDate cfg)) < IZR (getTime (seasonEndDate cfg)) ->
  getAgingDelta age position = Normal fullYearDelta ->
  exists partial : R,
    getPartialYearAgingDelta cfg age position asOfDate = Normal partial
    /\ Rabs partial <= Rabs fullYearDelta
    /\ 0 <= partial * fullYearDelta
    /\ ((getTime (default (dataAsOfDate cfg) asOfDate)
         <= getTime (seasonStartDate cfg))%Z -> partial = 0)
    /\ ((getTime (seasonEndDate cfg)
         <= getTime (default (dataAsOfDate cfg) asOfDate))%Z ->
        partial = fullYearDelta).
Proof.
  intros Hne Hd.
  exists (fullYearDelta * getSeasonProgress cfg asOfDate).
  split; [unfold getPartialYearAgingDelta; rewrite Hd; reflexivity|].
  pose proof (getSeasonProgress_range cfg asOfDate) as Hp.
  split.
  { rewrite Rabs_mult, (Rabs_pos_eq (getSeasonProgress cfg asOfDate)) by lra.
    pose proof (Rabs_pos fullYearDelta). nra. }
  split; [nra|].
  rewrite getSeasonProgress_default.
  split; intros H.
  - rewrite (getSeasonProgress_before cfg _ Hne H). lra.
  - rewrite (getSeasonProgress_after cfg _ Hne H). lra.
Qed.

Lemma partial_year_delta_between_witness :
  exists partial : R,
    getPartialYearAgingDelta SEASON_CONFIG 27 "sf_pos"
      (Some (Date_of_ymd 2026 6 1)) = Normal partial
    /\ partial = 0.00.
Proof.
  destruct (partial_year_delta_between SEASON_CONFIG 27 "sf_pos"
              (Some (Date_of_ymd 2026 6 1)) 0.00 SEASON_CONFIG_nonempty
              (getAgingDelta_wing_27 27 eq_refl))
    as (partial & Hp & _ & _ & _ & Hend).
  exists partial. split; [exact Hp|].
  apply Hend. vm_compute. discriminate.
Defined.

Lemma getCumulativeAgingDelta_sum
    (cfg : SeasonConfig) (age : R) (position : string) (n : nat) :
  getCumulativeAgingDelta cfg age position (Z.of_nat n) false
  = sumOfFullYearDeltas age position n.
Proof.
  unfold getCumulativeAgingDelta. cbn [bind].
  rewrite Nat2Z.id. apply aging_loop_sum.
Qed.

(** X4.  Projecting no years ahead, or a negative number of them, runs no
    step of the loop: without the partial current year the result is 0
    and nothing is looked up, whatever the position code; with the
    partial current year the result is the partial-year delta alone, and
    fails exactly when that fails. *)
Theorem cumulative_delta_no_years
    (cfg : SeasonConfig) (currentAge : R) (position : string)
    (yearsForward : Z) :
  (yearsForward <= 0)%Z ->
  getCumulativeAgingDelta cfg currentAge position yearsForward false
  = Normal 0
  /\ getCumulativeAgingDelta cfg currentAge position yearsForward true
     = getPartialYearAgingDelta cfg currentAge position None.
Proof.
  intros Hy. unfold getCumulativeAgingDelta.
  replace (Z.to_nat yearsForward) with 0%nat by lia. split.
  - reflexivity.
  - destruct (getPartialYearAgingDelta cfg currentAge position None)
      as [partial|e]; cbn [bind for_loop]; [|reflexivity].
    f_equal. lra.
Qed.

Lemma cumulative_delta_no_years_witness :
  (getCumulativeAgingDelta SEASON_CONFIG 30 "constructor" (-2) false
   = Normal 0
   /\ getCumulativeAgingDelta SEASON_CONFIG 30 "constructor" (-2) true
      = getPartialYearAgingDelta SEASON_CONFIG 30 "constructor" None)
  /\ getCumulativeAgingDelta SEASON_CONFIG 27 "sf_pos" 0 true
     = getPartialYearAgingDelta SEASON_CONFIG 27 "sf_pos" None.
Proof.
  split.
  - apply (cumulative_delta_no_years SEASON_CONFIG 30 "constructor" (-2)).
    lia.
  - apply (cumulative_delta_no_years SEASON_CONFIG 27 "sf_pos" 0). lia.
Defined.

(** ** The shape of the aging curves *)

Lemma curve_step (table : gmap Z R) (k : Z) (a b : R) :
  is_curve table -> (20 <= k < 36)%Z ->
  table !! k = Some a -> table !! (k + 1)%Z = Some b -> b <= a.
Proof.
  intros Ht Hk Ha Hb.
  assert (20 <= k <= 36)%Z as Hk' by lia.
  destruct Ht as [-> | [-> | ->]]; split_ages k Hk'; try lia;
    read_table Ha; read_table Hb; lra.
Qed.

Lemma curve_from_27 (table : gmap Z R) (k : Z) (a : R) :
  is_curve table -> (27 <= k <= 36)%Z -> table !! k = Some a -> a <= 0.
Proof.
  intros Ht Hk Ha.
  assert (20 <= k <= 36)%Z as Hk' by lia.
  destruct Ht as [-> | [-> | ->]]; split_ages k Hk'; try lia;
    read_table Ha; lra.
Qed.

Lemma curve_until_25 (table : gmap Z R) (k : Z) (a : R) :
  is_curve table -> (20 <= k <= 25)%Z -> table !! k = Some a -> 0 < a.
Proof.
  intros Ht Hk Ha.
  assert (20 <= k <= 36)%Z as Hk' by lia.
  destruct Ht as [-> | [-> | ->]]; split_ages k Hk'; try lia;
    read_table Ha; lra.
Qed.

Lemma is_curve_complete (table : gmap Z R) :
  is_curve table -> complete_table table.
Proof.
  intros [-> | [-> | ->]];
    auto using guard_curve_complete, wing_curve_complete, big_curve_complete.
Qed.

Lemma curve_nonincreasing (table : gmap Z R) (n : nat) :
  is_curve table ->
  forall (k : Z) (a b : R),
    (20 <= k)%Z -> (k + Z.of_nat n <= 36)%Z ->
    table !! k = Some a -> table !! (k + Z.of_nat n)%Z = Some b -> b <= a.
Proof.
  intros Ht. induction n as [|n IH]; intros k a b Hk Hn Ha Hb.
  - rewrite Z.add_0_r in Hb. assert (a = b) by congruence. lra.
  - destruct (is_curve_complete table Ht (k + Z.of_nat n)%Z ltac:(lia))
      as [c Hc].
    pose proof (IH k a c Hk ltac:(lia) Ha Hc).
    replace (k + Z.of_nat (S n))%Z with (k + Z.of_nat n + 1)%Z in Hb by lia.
    pose proof (curve_step table (k + Z.of_nat n)%Z c b Ht ltac:(lia) Hc Hb).
    lra.
Qed.

(** Every position code settles, for all ages at once, which table is
    read, if any. *)
Lemma getAgingDelta_table (position : string) :
  (exists table,
      is_curve table
      /\ forall age, getAgingDelta age position
                     = curve_at (Curve table)
                         (Z.max 20 (Z.min 36 (Zfloor age))))
  \/ (exists e, forall age, getAgingDelta age position = Abrupt e).
Proof.
  unfold getAgingDelta.
  destruct (AGING_CURVES_get
              (or_else (Js.get POSITION_CATEGORIES position)
                 (Str DEFAULT_POSITION_CATEGORY))) as [table| |] eqn:E.
  - left. exists table. split; [|reflexivity].
    unfold AGING_CURVES_get in E.
    destruct (or_else _ _) as [s| |]; try discriminate E.
    destruct (AGING_CURVES !! s) as [t|] eqn:Es.
    + injection E as <-. apply AGING_CURVES_inv in Es.
      unfold is_curve. tauto.
    + destruct (inherited s); discriminate E.
  - right. exists UndefinedValue. reflexivity.
  - right. exists TypeError. reflexivity.
Qed.

Lemma curve_at_inv (table : gmap Z R) (k : Z) (delta : R) :
  curve_at (Curve table) k = Normal delta -> table !! k = Some delta.
Proof.
  unfold curve_at. destruct (table !! k); [|discriminate].
  intros [= <-]. reflexivity.
Qed.

Lemma getAgingDelta_nonincreasing
    (position : string) (age1 age2 delta1 delta2 : R) :
  age1 <= age2 ->
  getAgingDelta age1 position = Normal delta1 ->
  getAgingDelta age2 position = Normal delta2 ->
  delta2 <= delta1.
Proof.
  intros Hage H1 H2.
  destruct (getAgingDelta_table position) as [(table & Ht & Heq)|[e Heq]];
    [|rewrite Heq in H1; discriminate H1].
  rewrite Heq in H1, H2. apply curve_at_inv in H1, H2.
  pose proof (Zfloor_le _ _ Hage) as Hfl.
  set (k1 := Z.max 20 (Z.min 36 (Zfloor age1))) in *.
  set (k2 := Z.max 20 (Z.min 36 (Zfloor age2))) in *.
  assert (k1 <= k2)%Z as Hk by lia.
  replace k2 with (k1 + Z.of_nat (Z.to_nat (k2 - k1)))%Z in H2 by lia.
  apply (curve_nonincreasing table (Z.to_nat (k2 - k1)) Ht k1 delta1 delta2);
    try assumption; lia.
Qed.

Lemma getAgingDelta_until_25 (position : string) (age delta : R) :
  age < 26 -> getAgingDelta age position = Normal delta -> 0 < delta.
Proof.
  intros Hy H.
  destruct (getAgingDelta_table position) as [(table & Ht & Heq)|[e Heq]];
    [|rewrite Heq in H; discriminate H].
  rewrite Heq in H. apply curve_at_inv in H.
  pose proof (Zfloor_below age 26 Hy).
  apply (curve_until_25 table _ delta Ht) in H; [exact H|lia].
Qed.

Lemma getAgingDelta_from_27 (position : string) (age delta : R) :
  27 <= age -> getAgingDelta age position = Normal delta -> delta <= 0.
Proof.
  intros Ho H.
  destruct (getAgingDelta_table position) as [(table & Ht & Heq)|[e Heq]];
    [|rewrite Heq in H; discriminate H].
  rewrite Heq in H. apply curve_at_inv in H.
  assert (27 <= Zfloor age)%Z by (apply Zfloor_lub; exact Ho).
  apply (curve_from_27 table _ delta Ht) in H; [exact H|lia].
Qed.

Lemma getAgingDelta_integer_age (k : Z) (position : string) :
  getAgingDelta (IZR k) position
  = curve_at (AGING_CURVES_get
                (or_else (Js.get POSITION_CATEGORIES position)
                   (Str DEFAULT_POSITION_CATEGORY)))
      (Z.max 20 (Z.min 36 k)).
Proof. unfold getAgingDelta. rewrite ZfloorZ. reflexivity. Qed.

(** X5.  At a given position the expected yearly change never gets
    better with age; it is positive below 26 and never positive from 27
    on. *)
Theorem aging_delta_shape
    (position : string) (age1 age2 delta1 delta2 : R) :
  age1 <= age2 ->
  getAgingDelta age1 position = Normal delta1 ->
  getAgingDelta age2 position = Normal delta2 ->
  delta2 <= delta1
  /\ (age1 < 26 -> 0 < delta1)
  /\ (27 <= age2 -> delta2 <= 0).
Proof.
  intros Hage H1 H2. split; [|split].
  - exact (getAgingDelta_nonincreasing _ _ _ _ _ Hage H1 H2).
  - intros Hy. exact (getAgingDelta_until_25 _ _ _ Hy H1).
  - intros Ho. exact (getAgingDelta_from_27 _ _ _ Ho H2).
Qed.

Lemma aging_delta_shape_witness :
  exists delta1 delta2 : R,
    getAgingDelta 24 "c_pos" = Normal delta1
    /\ getAgingDelta 33 "c_pos" = Normal delta2
    /\ delta2 <= delta1 /\ 0 < delta1 /\ delta2 <= 0.
Proof.
  assert (getAgingDelta 24 "c_pos" = Normal 0.18) as H1
      by (rewrite (getAgingDelta_integer_age 24); reflexivity).
  assert (getAgingDelta 33 "c_pos" = Normal (-0.70)) as H2
      by (rewrite (getAgingDelta_integer_age 33); reflexivity).
  destruct (aging_delta_shape "c_pos" 24 33 0.18 (-0.70) ltac:(lra) H1 H2)
    as (Hle & Hyoung & Hold).
  exists 0.18, (-0.70). split; [exact H1|]. split; [exact H2|].
  split; [exact Hle|]. split; [apply Hyoung; lra | apply Hold; lra].
Defined.

Lemma sumOfFullYearDeltas_declines
    (currentAge : R) (position : string) (n : nat) :
  27 <= currentAge ->
  inherited position = false ->
  exists sum next : R,
    sumOfFullYearDeltas currentAge position n = Normal sum
    /\ sumOfFullYearDeltas currentAge position (S n) = Normal next
    /\ next <= sum
    /\ sum <= 0.
Proof.
  intros Hage Hreg.
  assert (Hall : forall k : nat,
             exists s, sumOfFullYearDeltas currentAge position k = Normal s
                       /\ s <= 0).
  { induction k as [|k (s & Hs & Hle)]; [exists 0; split; [reflexivity|lra]|].
    destruct (getAgingDelta_regular (currentAge + INR k) position Hreg)
      as [d Hd].
    pose proof (pos_INR k).
    pose proof (getAgingDelta_from_27 position (currentAge + INR k) d
                  ltac:(lra) Hd).
    exists (s + d). cbn [sumOfFullYearDeltas]. rewrite Hs. cbn [bind].
    rewrite Hd. split; [reflexivity|lra]. }
  destruct (Hall n) as (s & Hs & Hle).
  destruct (getAgingDelta_regular (currentAge + INR n) position Hreg)
    as [d Hd].
  pose proof (pos_INR n).
  pose proof (getAgingDelta_from_27 position (currentAge + INR n) d
                ltac:(lra) Hd).
  exists s, (s + d). split; [exact Hs|]. split; [|split; lra].
  cbn [sumOfFullYearDeltas]. rewrite Hs. cbn [bind]. rewrite Hd. reflexivity.
Qed.

(** X6.  From age 27 on a projection never gains: the cumulative delta
    is at most 0 and does not grow with a further year. *)
Theorem cumulative_delta_declines
    (cfg : SeasonConfig) (currentAge : R) (position : string) (n : nat) :
  27 <= currentAge ->
  inherited position = false ->
  exists sum next : R,
    getCumulativeAgingDelta cfg currentAge position (Z.of_nat n) false
    = Normal sum
    /\ getCumulativeAgingDelta cfg currentAge position (Z.of_nat (S n)) false
       = Normal next
    /\ next <= sum
    /\ sum <= 0.
Proof.
  intros Hage Hreg. rewrite !getCumulativeAgingDelta_sum.
  apply sumOfFullYearDeltas_declines; assumption.
Qed.

Lemma cumulative_delta_declines_witness :
  exists sum next : R,
    getCumulativeAgingDelta SEASON_CONFIG 31.5 "pg_pos" (Z.of_nat 2) false
    = Normal sum
    /\ getCumulativeAgingDelta SEASON_CONFIG 31.5 "pg_pos" (Z.of_nat 3) false
       = Normal next
    /\ next <= sum
    /\ sum <= 0.
Proof.
  apply (cumulative_delta_declines SEASON_CONFIG 31.5 "pg_pos" 2);
    [lra | reflexivity].
Defined.

(** ** The valuation as a function of its inputs *)

Lemma Math_pow_monotone (x y e : R) :
  0 <= x <= y -> 0 <= e -> Math_pow x e <= Math_pow y e.
Proof.
  intros Hxy He. unfold Math_pow.
  destruct (Req_dec_T x 0) as [Hx|Hx], (Req_dec_T y 0) as [Hy|Hy]; try lra.
  - left. apply exp_pos.
  - apply Rle_Rpower_l; lra.
Qed.

Lemma cappedBoost_monotone (d1 d2 : R) :
  Rabs d1 <= Rabs d2 -> cappedBoost d1 <= cappedBoost d2.
Proof.
  intros H. unfold cappedBoost, boostFactor.
  pose proof (Rabs_pos d1).
  assert (Math_pow (Rabs d1 / MVP_BONUS_DIVISOR) MVP_BONUS_EXPONENT
          <= Math_pow (Rabs d2 / MVP_BONUS_DIVISOR) MVP_BONUS_EXPONENT).
  { apply Math_pow_monotone; unfold MVP_BONUS_DIVISOR, MVP_BONUS_EXPONENT;
      lra. }
  unfold MVP_BONUS_CAP in *. unfold Rmin.
  destruct (Rle_dec _ _), (Rle_dec _ _); lra.
Qed.

Lemma cappedBoost_zero : cappedBoost 0 = 0.
Proof.
  unfold cappedBoost, boostFactor, Math_pow.
  rewrite Rabs_R0. unfold MVP_BONUS_DIVISOR, MVP_BONUS_CAP.
  destruct (Req_dec_T (0 / 4) 0); [|lra].
  unfold Rmin. destruct (Rle_dec _ _); lra.
Qed.

Lemma cappedBoost_below_cap (darko : R) :
  Rabs darko < 4 -> cappedBoost darko < 0.10.
Proof.
  intros H. unfold cappedBoost, boostFactor, MVP_BONUS_CAP.
  pose proof (Rabs_pos darko).
  assert (Math_pow (Rabs darko / MVP_BONUS_DIVISOR) MVP_BONUS_EXPONENT < 1).
  { apply Math_pow_lt_1; unfold MVP_BONUS_DIVISOR, MVP_BONUS_EXPONENT; lra. }
  unfold Rmin. destruct (Rle_dec _ _); lra.
Qed.

(** X7.  The boost vanishes at a rating of 0, so that the three cases of
    the adjustment agree there; it grows with the size of the rating and
    stays below the cap of 0.10 exactly as long as the rating is within
    4 points of 0. *)
Theorem boost_shape (games minutes : R) :
  cappedBoost 0 = 0
  /\ adjustedSalary games minutes 0
     = baseSalary games minutes 0 * (1 + cappedBoost 0)
  /\ adjustedSalary games minutes 0
     = baseSalary games minutes 0 * (1 - cappedBoost 0)
  /\ (forall d1 d2 : R,
         Rabs d1 <= Rabs d2 -> cappedBoost d1 <= cappedBoost d2)
  /\ (forall darko : R, cappedBoost darko = 0.10 <-> 4 <= Rabs darko).
Proof.
  split; [exact cappedBoost_zero|].
  assert (adjustedSalary games minutes 0 = baseSalary games minutes 0) as H0.
  { unfold adjustedSalary. destruct (Rlt_dec 0 0); [lra|]. reflexivity. }
  rewrite H0, cappedBoost_zero.
  split; [lra|]. split; [lra|].
  split; [exact cappedBoost_monotone|].
  intros darko. split; [|apply cappedBoost_capped].
  intros H. destruct (Rle_dec 4 (Rabs darko)) as [|Hlt]; [assumption|].
  pose proof (cappedBoost_below_cap darko ltac:(lra)). lra.
Qed.

Lemma boost_shape_witness : cappedBoost 1 <= cappedBoost (- 2.5).
Proof.
  apply (boost_shape 70 30).
  rewrite (Rabs_pos_eq 1), (Rabs_left (- 2.5)) by lra. lra.
Defined.

Lemma adjustedSalary_ratingValue (games minutes darko : R) :
  adjustedSalary games minutes darko
  = games * minutes / MINUTES_BASELINE * WIN_COST_MILLIONS * ratingValue darko.
Proof.
  unfold adjustedSalary, ratingValue, baseSalary.
  destruct (Rlt_dec 0 darko); [ring|].
  destruct (Rlt_dec darko 0); ring.
Qed.

Lemma playing_time_nonneg (games minutes : R) :
  0 <= games -> 0 <= minutes ->
  0 <= games * minutes / MINUTES_BASELINE * WIN_COST_MILLIONS.
Proof.
  intros Hg Hm. unfold MINUTES_BASELINE, WIN_COST_MILLIONS.
  assert (0 <= games * minutes) by nra. lra.
Qed.

Lemma ratingValue_nonpos (darko : R) : darko <= -3 -> ratingValue darko <= 0.
Proof.
  intros H. unfold ratingValue, REPLACEMENT_LEVEL_DARKO.
  pose proof (cappedBoost_range darko).
  destruct (Rlt_dec 0 darko); [lra|].
  destruct (Rlt_dec darko 0); nra.
Qed.

Lemma ratingValue_nonneg (darko : R) : -3 <= darko -> 0 <= ratingValue darko.
Proof.
  intros H. unfold ratingValue, REPLACEMENT_LEVEL_DARKO.
  pose proof (cappedBoost_range darko).
  destruct (Rlt_dec 0 darko); [nra|].
  destruct (Rlt_dec darko 0); nra.
Qed.

Lemma ratingValue_monotone (d1 d2 : R) :
  -3 <= d1 -> d1 <= d2 -> ratingValue d1 <= ratingValue d2.
Proof.
  intros Hlow Hle. unfold ratingValue, REPLACEMENT_LEVEL_DARKO.
  pose proof (cappedBoost_range d1) as R1.
  pose proof (cappedBoost_range d2) as R2.
  destruct (Rlt_dec 0 d1) as [P1|P1].
  - destruct (Rlt_dec 0 d2) as [P2|P2]; [|lra].
    assert (cappedBoost d1 <= cappedBoost d2)
      by (apply cappedBoost_monotone; rewrite !Rabs_pos_eq; lra).
    nra.
  - destruct (Rlt_dec d1 0) as [N1|N1].
    + destruct (Rlt_dec 0 d2) as [P2|P2]; [nra|].
      destruct (Rlt_dec d2 0) as [N2|N2]; [|nra].
      assert (cappedBoost d2 <= cappedBoost d1)
        by (apply cappedBoost_monotone; rewrite !Rabs_left; lra).
      nra.
    + destruct (Rlt_dec 0 d2) as [P2|P2]; [nra|].
      destruct (Rlt_dec d2 0) as [N2|N2]; lra.
Qed.

Lemma calculateSalary_le (g1 m1 d1 g2 m2 d2 : R) :
  (3 <= adjustedSalary g1 m1 d1 ->
   adjustedSalary g1 m1 d1 <= adjustedSalary g2 m2 d2) ->
  salary_le (calculateSalary g1 m1 d1) (calculateSalary g2 m2 d2).
Proof.
  intros H. unfold calculateSalary, MINIMUM_SALARY_THRESHOLD.
  destruct (Rlt_dec (adjustedSalary g1 m1 d1) 3.0) as [|H1]; [exact I|].
  specialize (H ltac:(lra)).
  destruct (Rlt_dec (adjustedSalary g2 m2 d2) 3.0); [lra|].
  cbn. apply toFixed1_monotone; lra.
Qed.

(** X8.  With no playing time, or a rating at or below replacement
    level (-3), the valuation is the minimum salary. *)
Theorem valuation_without_value (games minutes darko : R) :
  0 <= games -> 0 <= minutes ->
  games = 0 \/ minutes = 0 \/ darko <= -3 ->
  calculateSalary games minutes darko = MinimumSalary.
Proof.
  intros Hg Hm Hcase.
  assert (adjustedSalary games minutes darko <= 0) as Hs.
  { rewrite adjustedSalary_ratingValue.
    destruct Hcase as [->|[->|Hd]].
    - unfold Rdiv. rewrite !Rmult_0_l. lra.
    - unfold Rdiv. rewrite Rmult_0_r, !Rmult_0_l. lra.
    - pose proof (playing_time_nonneg games minutes Hg Hm).
      pose proof (ratingValue_nonpos darko Hd). nra. }
  unfold calculateSalary, MINIMUM_SALARY_THRESHOLD.
  destruct (Rlt_dec _ 3.0); [reflexivity|lra].
Qed.

Lemma valuation_without_value_witness :
  calculateSalary 82 0 8 = MinimumSalary
  /\ calculateSalary 82 48 (-3) = MinimumSalary.
Proof.
  split.
  - apply valuation_without_value; [lra | lra | right; left; reflexivity].
  - apply valuation_without_value; [lra | lra | right; right; lra].
Defined.

(** X9.  More games or more minutes never lower a valuation. *)
Theorem valuation_monotone_in_playing_time
    (games1 games2 minutes1 minutes2 darko : R) :
  0 <= games1 <= games2 ->
  0 <= minutes1 <= minutes2 ->
  salary_le (calculateSalary games1 minutes1 darko)
            (calculateSalary games2 minutes2 darko).
Proof.
  intros Hg Hm. apply calculateSalary_le. intros H3.
  rewrite !adjustedSalary_ratingValue in *.
  destruct (Rle_dec (-3) darko) as [Hd|Hd].
  - pose proof (ratingValue_nonneg darko Hd).
    assert (games1 * minutes1 <= games2 * minutes2) by nra.
    unfold MINUTES_BASELINE, WIN_COST_MILLIONS in *.
    apply Rmult_le_compat_r; [assumption|]. lra.
  - pose proof (ratingValue_nonpos darko ltac:(lra)).
    pose proof (playing_time_nonneg games1 minutes1 ltac:(lra) ltac:(lra)).
    nra.
Qed.

Lemma valuation_monotone_in_playing_time_witness :
  salary_le (calculateSalary 60 20 0.5) (calculateSalary 75 35 0.5).
Proof.
  apply valuation_monotone_in_playing_time; lra.
Defined.

(** X10.  A higher rating never lowers a valuation, whatever the playing
    time. *)
Theorem valuation_monotone_in_rating (games minutes darko1 darko2 : R) :
  0 <= games -> 0 <= minutes ->
  darko1 <= darko2 ->
  salary_le (calculateSalary games minutes darko1)
            (calculateSalary games minutes darko2).
Proof.
  intros Hg Hm Hd. apply calculateSalary_le. intros H3.
  rewrite !adjustedSalary_ratingValue in *.
  pose proof (playing_time_nonneg games minutes Hg Hm) as Ht.
  destruct (Rle_dec (-3) darko1) as [Hlow|Hlow].
  - apply Rmult_le_compat_l; [exact Ht|].
    apply ratingValue_monotone; assumption.
  - pose proof (ratingValue_nonpos darko1 ltac:(lra)). nra.
Qed.

Lemma valuation_monotone_in_rating_witness :
  salary_le (calculateSalary 70 30 (-1)) (calculateSalary 70 30 5.5).
Proof.
  apply valuation_monotone_in_rating; lra.
Defined.

(** ** Inflation and the projected seasons *)

Lemma INFLATION_SCALERS_inv (season : string) (m : R) :
  INFLATION_SCALERS !! season = Some m ->
  (season = "2026-27"%string /\ m = 1.074)
  \/ (season = "2027-28"%string /\ m = 1.127)
  \/ (season = "2028-29"%string /\ m = 1.184)
  \/ (season = "2029-30"%string /\ m = 1.240)
  \/ (season = "2030-31"%string /\ m = 1.305).
Proof.
  unfold INFLATION_SCALERS. cbn [list_to_map foldr uncurry fst snd].
  rewrite !lookup_insert_Some, lookup_empty.
  intuition (subst; auto); discriminate.
Qed.

Lemma inflationScaler_ge_1 (season : string) (m : R) :
  inflationScaler season = Multiplier m -> 1 <= m.
Proof.
  unfold inflationScaler.
  destruct (INFLATION_SCALERS !! season) as [m'|] eqn:E.
  - destruct (nonzero m'); intros [= <-]; [|lra].
    apply INFLATION_SCALERS_inv in E.
    destruct E as [[_ ->]|[[_ ->]|[[_ ->]|[[_ ->]|[_ ->]]]]]; lra.
  - destruct (inherited season); [discriminate|]. intros [= <-]. lra.
Qed.

Lemma inflationScaler_FUTURE_YEARS :
  inflationScaler "2026-27" = Multiplier 1.074
  /\ inflationScaler "2027-28" = Multiplier 1.127
  /\ inflationScaler "2028-29" = Multiplier 1.184
  /\ inflationScaler "2029-30" = Multiplier 1.240
  /\ inflationScaler "2030-31" = Multiplier 1.305.
Proof.
  repeat split; apply inflationScaler_mapped; try reflexivity; lra.
Qed.

Lemma inflationScaler_increasing (i j : nat) (season later : string) :
  (i < j)%nat ->
  FUTURE_YEARS !! i = Some season -> FUTURE_YEARS !! j = Some later ->
  exists m m' : R,
    inflationScaler season = Multiplier m
    /\ inflationScaler later = Multiplier m'
    /\ m < m'.
Proof.
  intros Hij Hi Hj.
  destruct inflationScaler_FUTURE_YEARS as (E1 & E2 & E3 & E4 & E5).
  destruct i as [|[|[|[|[|i]]]]]; try discriminate Hi; injection Hi as <-;
    destruct j as [|[|[|[|[|j]]]]]; try discriminate Hj; try lia;
    injection Hj as <-;
    eexists _, _; (split; [eassumption|]); (split; [eassumption|]); lra.
Qed.

Lemma calculateSalary_tenths (games minutes darko : R) (tenths : Z) :
  calculateSalary games minutes darko = Fixed1 tenths -> (30 <= tenths)%Z.
Proof.
  unfold calculateSalary, MINIMUM_SALARY_THRESHOLD.
  destruct (Rlt_dec _ 3.0) as [|H]; [discriminate|]. intros [= <-].
  rewrite <- (toFixed1_tenths 30) by lia.
  apply toFixed1_monotone; lra.
Qed.

(** X11.  Inflation never lowers a valuation.  Whenever the inflated
    value of a season is a number, it is 0 for the minimum-salary
    sentinel and at least the figure valued otherwise; it is a number for
    every season label that names no inherited property of the table of
    multipliers; and over the projected seasons, for the same valuation,
    a later season is never worth less, and is worth more when the
    valuation is a figure. *)
Theorem inflation_never_lowers (games minutes darko : R) :
  let raw := calculateSalary games minutes darko in
  (forall (season : string) (value : R),
      inflatedValue season raw = Normal value ->
      match raw with
      | MinimumSalary => value = 0
      | Fixed1 tenths => IZR tenths / 10 <= value
      end)
  /\ (forall season : string,
         inherited season = false ->
         exists value : R, inflatedValue season raw = Normal value)
  /\ (forall (i j : nat) (season later : string),
         (i < j)%nat ->
         FUTURE_YEARS !! i = Some season -> FUTURE_YEARS !! j = Some later ->
         exists value laterValue : R,
           inflatedValue season raw = Normal value
           /\ inflatedValue later raw = Normal laterValue
           /\ value <= laterValue
           /\ (raw <> MinimumSalary -> value < laterValue)).
Proof.
  intros raw. subst raw.
  destruct (calculateSalary games minutes darko) as [|tenths] eqn:E.
  - split; [|split].
    + intros season value [= <-]. reflexivity.
    + intros season _. exists 0. reflexivity.
    + intros i j season later _ _ _. exists 0, 0.
      split; [reflexivity|]. split; [reflexivity|].
      split; [lra|congruence].
  - apply calculateSalary_tenths in E. apply IZR_le in E.
    split; [|split].
    + intros season value Hv. apply inflatedValue_inv in Hv.
      destruct Hv as (m & Hm & ->).
      pose proof (inflationScaler_ge_1 season m Hm). nra.
    + intros season Hreg. apply inflatedValue_regular. exact Hreg.
    + intros i j season later Hij Hi Hj.
      destruct (inflationScaler_increasing i j season later Hij Hi Hj)
        as (m & m' & Hm & Hm' & Hlt).
      pose proof (inflationScaler_ge_1 season m Hm).
      exists (IZR tenths / 10 * m), (IZR tenths / 10 * m').
      unfold inflatedValue, parseFloat1. rewrite Hm, Hm'.
      split; [reflexivity|]. split; [reflexivity|].
      split; [|intros _]; nra.
Qed.

Lemma inflation_never_lowers_witness :
  exists value laterValue : R,
    inflatedValue "2026-27" (calculateSalary 75 35 5.0) = Normal value
    /\ inflatedValue "2030-31" (calculateSalary 75 35 5.0)
       = Normal laterValue
    /\ value < laterValue.
Proof.
  destruct (proj2 (proj2 (inflation_never_lowers 75 35 5.0))
              0%nat 4%nat "2026-27"%string "2030-31"%string
              ltac:(lia) eq_refl eq_refl)
    as (value & laterValue & Hv & Hl & _ & Hlt).
  exists value, laterValue. split; [exact Hv|]. split; [exact Hl|].
  apply Hlt. rewrite calculateSalary_star_example. discriminate.
Defined.

(** X25.  A season label that names a property every object inherits,
    such as ["constructor"], finds that property where a multiplier is
    looked up, and the default of 1 is not taken: a figure then has no
    inflated value that is a number, while the minimum salary still
    counts as 0.  None of the five projected seasons has such a label. *)
Theorem inflation_of_inherited_label (label : string) (tenths : Z) :
  inherited label = true ->
  INFLATION_SCALERS !! label = None
  /\ inflatedValue label (Fixed1 tenths) = Abrupt NotANumber
  /\ inflatedValue label MinimumSalary = Normal 0
  /\ label ∉ FUTURE_YEARS.
Proof.
  intros H.
  assert (INFLATION_SCALERS !! label = None) as Hnone.
  { unfold inherited in H. apply bool_decide_eq_true_1 in H.
    unfold Object_prototype in H.
    repeat (apply elem_of_cons in H; destruct H as [-> | H];
            [vm_compute; reflexivity|]).
    inversion H. }
  split; [exact Hnone|]. split; [|split].
  - unfold inflatedValue.
    rewrite (inflationScaler_inherited label Hnone H). reflexivity.
  - reflexivity.
  - intros Hin.
    pose proof (proj1 (Forall_forall _ _) FUTURE_YEARS_regular label Hin)
      as Hreg.
    cbv beta in Hreg. congruence.
Qed.

Lemma inflation_of_inherited_label_witness :
  inflatedValue "constructor" (Fixed1 677) = Abrupt NotANumber.
Proof.
  apply (inflation_of_inherited_label "constructor" 677). reflexivity.
Defined.

(** X12.  From age 27 on, with playing time kept the same, the raw
    valuation of a season is never above that of the season before. *)
Theorem raw_valuation_declines
    (player : Player) (games minutes improvement : R) (idx : nat) :
  27 <= age player ->
  inherited (pos player) = false ->
  0 <= games -> 0 <= minutes ->
  exists this next : salary,
    rawSalary player games minutes improvement idx = Normal this
    /\ rawSalary player games minutes improvement (S idx) = Normal next
    /\ salary_le next this.
Proof.
  intros Hage Hreg Hg Hm.
  destruct (sumOfFullYearDeltas_declines (age player) (pos player) (S idx)
              Hage Hreg) as (sum & next & Hs & Hn & Hle & _).
  rewrite !rawSalary_sum, Hs, Hn. cbn [bind].
  eexists _, _. split; [reflexivity|]. split; [reflexivity|].
  apply calculateSalary_le. intros H3.
  rewrite !adjustedSalary_ratingValue in *.
  pose proof (playing_time_nonneg games minutes Hg Hm) as Ht.
  destruct (Rle_dec (-3) (darko player + improvement + next)) as [Hlow|Hlow].
  - apply Rmult_le_compat_l; [exact Ht|].
    apply ratingValue_monotone; lra.
  - pose proof (ratingValue_nonpos (darko player + improvement + next)
                  ltac:(lra)).
    nra.
Qed.

Lemma raw_valuation_declines_witness :
  rawSalary star_player 75 35 0 1 = Normal (Fixed1 677)
  /\ rawSalary star_player 75 35 0 2 = Normal (Fixed1 672)
  /\ salary_le (Fixed1 672) (Fixed1 677).
Proof.
  destruct (raw_valuation_declines star_player 75 35 0 1)
    as (this & next & Hthis & Hnext & Hle);
    [cbn; lra | reflexivity | lra | lra |].
  destruct star_player_rawSalary as (_ & H1 & H2).
  rewrite H1 in Hthis. rewrite H2 in Hnext.
  injection Hthis as <-. injection Hnext as <-.
  split; [exact H1|]. split; [exact H2|]. exact Hle.
Defined.

(** ** What the page shows *)

Lemma getSeasonProgress_data_date :
  getSeasonProgress SEASON_CONFIG None = 98 / 173.
Proof.
  unfold getSeasonProgress. cbn [default].
  destruct SEASON_CONFIG_times as (-> & -> & ->).
  unfold Rmin. destruct (Rle_dec 1 _); [lra|].
  unfold Rmax. destruct (Rle_dec 0 _); lra.
Qed.

(** X13.  For a season that ends after it starts, the season-progress
    label is a whole percentage from 0 to 100, the one nearest to the
    progress; with the configured season and data date it reads 57%. *)
Theorem season_progress_label_percent (cfg : SeasonConfig) :
  IZR (getTime (seasonStartDate cfg)) < IZR (getTime (seasonEndDate cfg)) ->
  (exists n : Z,
      getSeasonProgressLabel cfg = (string_of_Z n ++ "%")%string
      /\ (0 <= n <= 100)%Z
      /\ Rabs (IZR n - 100 * getSeasonProgress cfg None) <= 1 / 2)
  /\ getSeasonProgressLabel SEASON_CONFIG = "57%"%string.
Proof.
  intros _. split.
  - exists (Math_round (getSeasonProgress cfg None * 100)).
    split; [reflexivity|].
    pose proof (getSeasonProgress_range cfg None) as Hp.
    unfold Math_round.
    pose proof (Zfloor_bound (getSeasonProgress cfg None * 100 + / 2)) as Hb.
    split; [split|].
    + apply Zfloor_lub. lra.
    + apply Z.lt_succ_r, lt_IZR. change (IZR (Z.succ 100)) with 101. lra.
    + apply Rabs_le. lra.
  - unfold getSeasonProgressLabel. rewrite getSeasonProgress_data_date.
    replace (Math_round (98 / 173 * 100)) with 57%Z; [reflexivity|].
    symmetry. apply Zfloor_eq. lra.
Qed.

Lemma season_progress_label_percent_witness :
  exists n : Z,
    getSeasonProgressLabel SEASON_CONFIG = (string_of_Z n ++ "%")%string
    /\ (0 <= n <= 100)%Z
    /\ Rabs (IZR n - 100 * getSeasonProgress SEASON_CONFIG None) <= 1 / 2.
Proof.
  exact (proj1 (season_progress_label_percent SEASON_CONFIG
                  SEASON_CONFIG_nonempty)).
Defined.

Lemma toFixed1_rounds_to_zero (x : R) :
  -0.05 < x < 0.05 -> toFixed1 x = 0%Z.
Proof.
  intros H. unfold toFixed1. destruct (Rlt_dec x 0).
  - replace (Zfloor (10 * - x + / 2)) with 0%Z; [reflexivity|].
    symmetry. apply Zfloor_eq. lra.
  - apply Zfloor_eq. lra.
Qed.

(** X14.  [formatSurplus] marks a surplus as positive exactly when it is
    above 0, and its text keeps the sign of a surplus that rounds to
    zero: [+0.0M] above 0, [-0.0M] below, [0.0M] at 0. *)
Theorem surplus_text_keeps_sign (surplus : R) :
  (isPositive (formatSurplus surplus) = true <-> 0 < surplus)
  /\ (0 < surplus < 0.05 -> text (formatSurplus surplus) = "+0.0M"%string)
  /\ (-0.05 < surplus < 0 -> text (formatSurplus surplus) = "-0.0M"%string)
  /\ (surplus = 0 -> text (formatSurplus surplus) = "0.0M"%string).
Proof.
  unfold formatSurplus, toFixed1_text. cbn [text isPositive].
  split; [destruct (Rlt_dec 0 surplus); split; auto; discriminate|].
  split; [|split]; intros H;
    rewrite toFixed1_rounds_to_zero by lra;
    destruct (Rlt_dec 0 surplus); try lra;
    destruct (Rlt_dec surplus 0); try lra; reflexivity.
Qed.

Lemma surplus_text_keeps_sign_witness :
  text (formatSurplus 0.04) = "+0.0M"%string
  /\ text (formatSurplus (-0.04)) = "-0.0M"%string
  /\ text (formatSurplus 0) = "0.0M"%string.
Proof.
  split; [|split].
  - apply (surplus_text_keeps_sign 0.04). lra.
  - apply (surplus_text_keeps_sign (-0.04)). lra.
  - apply (surplus_text_keeps_sign 0). reflexivity.
Defined.

Lemma total_zero {A : Type} (f : A -> R) (xs : list A) :
  (forall x, x ∈ xs -> f x = 0) -> total (f <$> xs) = 0.
Proof.
  induction xs as [|x xs IH]; intros H; [reflexivity|].
  change (f <$> x :: xs) with (f x :: (f <$> xs)).
  unfold total in *. cbn [foldr].
  rewrite (H x) by apply list_elem_of_here.
  rewrite IH; [lra|]. intros y Hy. apply H. apply list_elem_of_further, Hy.
Qed.

(** X15.  For a player without a current salary and without a contract
    in any projected season, no row has a surplus and the total surplus
    is 0. *)
Theorem free_agent_no_surplus
    (cfg : SeasonConfig) (comp : Comparison) (player : Player)
    (details : Details) :
  PlayerDetails cfg comp player = Normal details ->
  has_salary (actualSalary player) = false ->
  (forall season : string,
      season ∈ FUTURE_YEARS -> has_salary (futureSalary player season) = false) ->
  totalSurplus details = 0
  /\ forall row : Row, row ∈ rows details -> surplus row = None.
Proof.
  intros Hd Hcur Hfut.
  destruct (PlayerDetails_inv _ _ _ _ Hd) as (delta & _ & _ & Hrows).
  destruct (futureRows_inv _ _ _ _ _ _ _ _ _ Hrows) as (Hlen & Htot & Hnth).
  assert (Hnone : forall row : Row, row ∈ rows details -> surplus row = None).
  { intros row Hin. apply list_elem_of_lookup in Hin. destruct Hin as [j Hj].
    assert (exists season, FUTURE_YEARS !! j = Some season) as [season Hl].
    { apply lookup_lt_is_Some. rewrite <- Hlen.
      apply lookup_lt_is_Some. eauto. }
    destruct (Hnth j season Hl) as (row' & Hrow' & Hf).
    assert (row' = row) as -> by congruence.
    destruct (futureRow_inv _ _ _ _ _ _ _ Hf)
      as (raw & inflated & _ & _ & _ & _ & _ & _ & Hs).
    rewrite Hs.
    specialize (Hfut season ltac:(apply list_elem_of_lookup; eauto)).
    unfold has_salary in Hfut.
    destruct (futureSalary player season); [rewrite Hfut|]; reflexivity. }
  split; [|exact Hnone].
  rewrite Htot, total_zero.
  - unfold currentSurplus. unfold has_salary in Hcur.
    destruct (actualSalary player); [rewrite Hcur|]; lra.
  - intros row Hin. unfold contribution. rewrite (Hnone row Hin). reflexivity.
Qed.

Lemma free_agent_no_surplus_witness :
  exists details,
    PlayerDetails SEASON_CONFIG example_scenario
      (mkPlayer "Rookie" "pg_pos" 20.3 1.2 None None) = Normal details
    /\ totalSurplus details = 0.
Proof.
  destruct (PlayerDetails_completes SEASON_CONFIG example_scenario
              (mkPlayer "Rookie" "pg_pos" 20.3 1.2 None None) eq_refl)
    as [details Hd].
  exists details. split; [exact Hd|].
  apply (free_agent_no_surplus _ _ _ _ Hd); [reflexivity|].
  intros season _. reflexivity.
Defined.

(** ** The player search *)

Lemma startsWith_spec (s t : string) :
  startsWith s t = true <-> exists r, s = (t ++ r)%string.
Proof.
  revert s. induction t as [|b t IH]; intros s.
  - cbn. split; [intros _; exists s; reflexivity | reflexivity].
  - destruct s as [|a s]; cbn [startsWith String.append].
    + split; [discriminate | intros [r H]; discriminate H].
    + case_bool_decide as Hab.
      * subst b. rewrite IH. split.
        -- intros [r ->]. exists r. reflexivity.
        -- intros [r H]. injection H as ->. exists r. reflexivity.
      * split; [discriminate|]. intros [r H]. injection H as Hc _.
        contradiction.
Qed.

Lemma includes_unfold (haystack needle : string) :
  includes haystack needle
  = if startsWith haystack needle then true
    else match haystack with
         | EmptyString => false
         | String _ rest => includes rest needle
         end.
Proof. destruct haystack; reflexivity. Qed.

Lemma includes_spec (haystack needle : string) :
  includes haystack needle = true
  <-> exists before after, haystack = (before ++ needle ++ after)%string.
Proof.
  split.
  - induction haystack as [|c rest IH]; rewrite includes_unfold.
    + destruct (startsWith "" needle) eqn:E; [|discriminate].
      intros _. apply startsWith_spec in E. destruct E as [r ->].
      exists ""%string, r. reflexivity.
    + destruct (startsWith (String c rest) needle) eqn:E.
      * intros _. apply startsWith_spec in E. destruct E as [r ->].
        exists ""%string, r. reflexivity.
      * intros H. destruct (IH H) as (before & after & ->).
        exists (String c before), after. reflexivity.
  - intros (before & after & ->).
    induction before as [|c before IH]; rewrite includes_unfold.
    + assert (startsWith (needle ++ after) needle = true) as E
          by (apply startsWith_spec; eauto).
      change ("" ++ needle ++ after)%string with (needle ++ after)%string.
      rewrite E. reflexivity.
    + change (String c before ++ needle ++ after)%string
        with (String c (before ++ needle ++ after)).
      destruct (startsWith _ needle); [reflexivity | exact IH].
Qed.

(** X16.  A search returns at most ten players, in the order of the data
    set, each with the lower-cased search term inside the lower-cased
    name; an empty search term returns nothing. *)
Theorem search_results
    (toLowerCase : string -> string) (playerData : list Player)
    (searchTerm : string) :
  let found := getFilteredPlayers toLowerCase playerData searchTerm in
  (length found <= 10)%nat
  /\ found `sublist_of` playerData
  /\ (forall p : Player,
         p ∈ found ->
         searchTerm <> ""%string
         /\ p ∈ playerData
         /\ exists before after,
              toLowerCase (name p)
              = (before ++ toLowerCase searchTerm ++ after)%string)
  /\ (searchTerm = ""%string -> found = []).
Proof.
  intros found. subst found. unfold getFilteredPlayers.
  case_bool_decide as Hterm.
  - split; [cbn; lia|]. split; [apply sublist_nil_l|].
    split; [intros p Hp; inversion Hp | reflexivity].
  - split; [rewrite length_take; lia|].
    split; [etrans; [apply sublist_take | apply sublist_filter]|].
    split; [|contradiction].
    intros p Hp. split; [exact Hterm|].
    pose proof (elem_of_sublist _ _ _ Hp
                  (sublist_take
                     (filter (fun p => matches toLowerCase searchTerm p = true)
                        playerData) 10)) as Hin.
    apply list_elem_of_filter in Hin. destruct Hin as [Hm Hin].
    split; [exact Hin|]. apply includes_spec. exact Hm.
Qed.

(** X17.  When no more than ten players match, the search returns every
    one of them. *)
Theorem search_results_complete
    (toLowerCase : string -> string) (playerData : list Player)
    (searchTerm : string) (p : Player) :
  searchTerm <> ""%string ->
  (length (filter (fun q => matches toLowerCase searchTerm q = true)
             playerData) <= 10)%nat ->
  p ∈ playerData ->
  (exists before after,
      toLowerCase (name p)
      = (before ++ toLowerCase searchTerm ++ after)%string) ->
  p ∈ getFilteredPlayers toLowerCase playerData searchTerm.
Proof.
  intros Hterm Hfew Hin Hsub. unfold getFilteredPlayers.
  case_bool_decide; [contradiction|].
  rewrite take_ge by exact Hfew.
  apply list_elem_of_filter. split; [|exact Hin].
  apply includes_spec. exact Hsub.
Qed.

Lemma search_results_complete_witness :
  mkPlayer "Al Horford" "c_pos" 39 1 None None
  ∈ getFilteredPlayers (fun s => s)
      [ mkPlayer "Al Horford" "c_pos" 39 1 None None;
        mkPlayer "Jrue Holiday" "pg_pos" 35 1 None None ]
      "Hor".
Proof.
  apply search_results_complete.
  - discriminate.
  - etrans; [apply length_filter|]. cbn. lia.
  - apply list_elem_of_here.
  - exists "Al "%string, "ford"%string. reflexivity.
Defined.

(** ** The list of comparisons *)

Lemma updateComparison_ids (i : Z) (updates : App.Updates)
    (prev : list App.Card) :
  App.id <$> App.updateComparison i updates prev = App.id <$> prev.
Proof.
  unfold App.updateComparison. rewrite <- list_fmap_compose.
  apply list_fmap_ext. intros k c _. cbn.
  case_bool_decide; reflexivity.
Qed.

Lemma filter_other_ids (i : Z) (cs : list App.Card) :
  i ∉ App.id <$> cs -> filter (fun c => App.id c <> i) cs = cs.
Proof.
  induction cs as [|c cs IH]; [reflexivity|].
  change (App.id <$> c :: cs) with (App.id c :: (App.id <$> cs)).
  rewrite not_elem_of_cons. intros [Hc Hcs].
  rewrite filter_cons_True by congruence. rewrite IH by exact Hcs.
  reflexivity.
Qed.

Lemma filter_distinct_ids (i : Z) (cs : list App.Card) :
  NoDup (App.id <$> cs) ->
  (length cs <= S (length (filter (fun c => App.id c <> i) cs)))%nat.
Proof.
  induction cs as [|c cs IH]; [cbn; lia|].
  change (App.id <$> c :: cs) with (App.id c :: (App.id <$> cs)).
  rewrite NoDup_cons. intros [Hc Hcs].
  destruct (decide (App.id c = i)) as [E|E].
  - rewrite filter_cons_False by tauto. subst i.
    rewrite filter_other_ids by exact Hc. cbn. lia.
  - rewrite filter_cons_True by exact E. specialize (IH Hcs). cbn. lia.
Qed.

Lemma removeComparison_ids (i : Z) (cs : list App.Card) :
  (App.id <$> App.removeComparison i cs) `sublist_of` (App.id <$> cs).
Proof.
  unfold App.removeComparison. destruct (1 <? length cs)%nat; [|reflexivity].
  apply fmap_sublist, sublist_filter.
Qed.

(** X18.  Whatever is clicked or typed, there is always at least one
    comparison card, and no two cards have the same [id], as long as
    the time stamp of each added card is not already in use. *)
Theorem comparisons_never_empty (comparisons : list App.Card) :
  App.reachable comparisons ->
  (1 <= length comparisons)%nat /\ NoDup (App.id <$> comparisons).
Proof.
  induction 1 as [|e cs Hreach [Hlen Hdup] Hfresh].
  - split; [cbn; lia|]. apply NoDup_singleton.
  - destruct e as [now|i|i player|comp value|comp|comp field value];
      cbn [App.handle].
    + unfold App.addComparison. split; [rewrite length_app; cbn; lia|].
      rewrite fmap_app. apply NoDup_app. split; [exact Hdup|].
      split; [|apply NoDup_singleton].
      intros x Hx Hin. apply list_elem_of_singleton in Hin. subst x.
      exact (Hfresh now eq_refl Hx).
    + split.
      * unfold App.removeComparison.
        destruct (1 <? length cs)%nat eqn:E; [|exact Hlen].
        apply Nat.ltb_lt in E.
        pose proof (filter_distinct_ids i cs Hdup). lia.
      * exact (sublist_NoDup _ _ Hdup (removeComparison_ids i cs)).
    + unfold App.selectPlayer. rewrite updateComparison_ids.
      unfold App.updateComparison. rewrite length_fmap. auto.
    + unfold App.handleSearchChange. rewrite updateComparison_ids.
      unfold App.updateComparison. rewrite length_fmap. auto.
    + unfold App.handleFocus. rewrite updateComparison_ids.
      unfold App.updateComparison. rewrite length_fmap. auto.
    + unfold App.handleSlider. rewrite updateComparison_ids.
      unfold App.updateComparison. rewrite length_fmap. auto.
Qed.

Lemma comparisons_never_empty_witness :
  (1 <= length (App.handle (App.Remove 1)
                  (App.handle (App.Add 1769558400000) App.initial)))%nat.
Proof.
  apply comparisons_never_empty.
  apply App.reachable_step; [apply App.reachable_step|].
  - apply App.reachable_initial.
  - intros now [= <-]. cbn. intros H. apply list_elem_of_singleton in H.
    discriminate H.
  - intros now H. discriminate H.
Defined.

(** X19.  Removing leaves a single card alone; with two or more cards it
    drops exactly the cards with the given [id], all of them; so the
    list becomes empty exactly when at least two cards were there and
    all had that [id]. *)
Theorem removeComparison_spec (i : Z) (comparisons : list App.Card) :
  ((length comparisons <= 1)%nat ->
   App.removeComparison i comparisons = comparisons)
  /\ ((1 < length comparisons)%nat ->
      forall c : App.Card,
        c ∈ App.removeComparison i comparisons
        <-> c ∈ comparisons /\ App.id c <> i)
  /\ (comparisons <> [] ->
      (App.removeComparison i comparisons = []
       <-> (1 < length comparisons)%nat
           /\ forall c : App.Card, c ∈ comparisons -> App.id c = i)).
Proof.
  unfold App.removeComparison.
  destruct (1 <? length comparisons)%nat eqn:E.
  - apply Nat.ltb_lt in E. split; [lia|]. split.
    + intros _ c. rewrite list_elem_of_filter. tauto.
    + intros _. split.
      * intros Hnil. split; [exact E|]. intros c Hc.
        destruct (decide (App.id c = i)) as [|Hne]; [assumption|].
        assert (c ∈ filter (fun c => App.id c <> i) comparisons) as Hin
            by (apply list_elem_of_filter; auto).
        rewrite Hnil in Hin. inversion Hin.
      * intros [_ Hall].
        destruct (filter (fun c => App.id c <> i) comparisons) as [|c rest]
          eqn:Ef; [reflexivity|].
        assert (c ∈ filter (fun c => App.id c <> i) comparisons) as Hin
            by (rewrite Ef; apply list_elem_of_here).
        apply list_elem_of_filter in Hin. destruct Hin as [Hne Hin].
        destruct (Hne (Hall c Hin)).
  - apply Nat.ltb_ge in E. split; [reflexivity|]. split; [lia|].
    intros Hne. split; [contradiction | lia].
Qed.

Lemma removeComparison_spec_witness :
  App.removeComparison 7 [ App.newCard 7; App.newCard 7 ] = []
  /\ App.removeComparison 7 [ App.newCard 7 ] = [ App.newCard 7 ].
Proof.
  split.
  - apply (removeComparison_spec 7 [ App.newCard 7; App.newCard 7 ]);
      [discriminate|].
    split; [cbn; lia|].
    intros c Hc. repeat (apply elem_of_cons in Hc; destruct Hc as [->|Hc]);
      [reflexivity | reflexivity | inversion Hc].
  - apply (removeComparison_spec 7 [ App.newCard 7 ]). cbn. lia.
Defined.

Lemma updateComparison_lookup (i : Z) (updates : App.Updates)
    (prev : list App.Card) (k : nat) (c' : App.Card) :
  App.updateComparison i updates prev !! k = Some c' ->
  exists c, prev !! k = Some c
            /\ c' = if bool_decide (App.id c = i)
                    then App.spread c updates else c.
Proof.
  unfold App.updateComparison. rewrite list_lookup_fmap.
  destruct (prev !! k) as [c|]; [|discriminate].
  intros [= <-]. eauto.
Qed.

(** X20.  Moving a slider of a card sets that value on the cards with
    the card's [id] and changes nothing else: no other card, no other
    slider, not the selected player, the search text or the drop-down
    flag, and not the order or the number of cards. *)
Theorem slider_update_is_local
    (comp : App.Card) (field : App.slider) (value : R)
    (prev : list App.Card) :
  length (App.handleSlider comp field value prev) = length prev
  /\ forall (k : nat) (c' : App.Card),
       App.handleSlider comp field value prev !! k = Some c' ->
       exists c : App.Card,
         prev !! k = Some c
         /\ App.id c' = App.id c
         /\ App.selectedPlayer c' = App.selectedPlayer c
         /\ App.searchTerm c' = App.searchTerm c
         /\ App.showDropdown c' = App.showDropdown c
         /\ (App.id c <> App.id comp -> c' = c)
         /\ (App.id c = App.id comp -> App.sliderValue field c' = value)
         /\ (forall other : App.slider,
                other <> field ->
                App.sliderValue other c' = App.sliderValue other c).
Proof.
  split; [unfold App.handleSlider, App.updateComparison; apply length_fmap|].
  intros k c' H. unfold App.handleSlider in H.
  apply updateComparison_lookup in H. destruct H as (c & Hc & ->).
  exists c. split; [exact Hc|].
  case_bool_decide as Hid.
  - destruct field; cbn; repeat split; try reflexivity; try contradiction;
      intros other Hother; destruct other; try contradiction; reflexivity.
  - repeat split; try reflexivity; try contradiction.
Qed.

Lemma slider_update_is_local_witness :
  exists c' : App.Card,
    App.handleSlider (App.newCard 1) App.Games 82 App.initial !! 0%nat
    = Some c'
    /\ App.sliderValue App.Games c' = 82
    /\ App.sliderValue App.Minutes c' = 30.
Proof.
  destruct (slider_update_is_local (App.newCard 1) App.Games 82 App.initial)
    as [_ H].
  exists (App.spread (App.newCard 1)
            (App.mkUpdates None (Some 82) None None None None)).
  destruct (H 0%nat (App.spread (App.newCard 1)
                       (App.mkUpdates None (Some 82) None None None None))
              eq_refl)
    as (c & Hc & _ & _ & _ & _ & _ & Hset & Hkeep).
  injection Hc as <-.
  split; [reflexivity|].
  split; [apply Hset; reflexivity|].
  rewrite (Hkeep App.Minutes) by discriminate. reflexivity.
Defined.

(** X21.  Selecting a player on a card shows the player's details, puts
    the name in the search box and hides the drop-down, with the sliders
    as they were; typing in the search box afterwards clears the
    selection, so the details disappear, again with the sliders as they
    were, and the drop-down shows unless the text is empty. *)
Theorem select_then_search
    (i : Z) (player : Player) (prev : list App.Card) (k : nat)
    (c : App.Card) (value : string) :
  prev !! k = Some c ->
  App.id c = i ->
  exists selected typed : App.Card,
    App.selectPlayer i player prev !! k = Some selected
    /\ App.selectedPlayer selected = Some player
    /\ App.searchTerm selected = name player
    /\ App.detailsShown selected = true
    /\ App.dropdownShown selected = false
    /\ (forall field, App.sliderValue field selected = App.sliderValue field c)
    /\ App.handleSearchChange selected value (App.selectPlayer i player prev)
       !! k = Some typed
    /\ App.selectedPlayer typed = None
    /\ App.searchTerm typed = value
    /\ App.detailsShown typed = false
    /\ App.dropdownShown typed = negb (bool_decide (value = ""%string))
    /\ (forall field, App.sliderValue field typed = App.sliderValue field c).
Proof.
  intros Hk <-.
  set (selected :=
         App.spread c
           {| App.set_selectedPlayer := Some (Some player);
              App.set_games := None; App.set_minutes := None;
              App.set_improvement := None;
              App.set_searchTerm := Some (name player);
              App.set_showDropdown := Some false |}).
  set (typed :=
         App.spread selected
           {| App.set_selectedPlayer := Some None;
              App.set_games := None; App.set_minutes := None;
              App.set_improvement := None;
              App.set_searchTerm := Some value;
              App.set_showDropdown := Some true |}).
  assert (Hsel : App.selectPlayer (App.id c) player prev !! k = Some selected).
  { unfold App.selectPlayer, App.updateComparison.
    rewrite list_lookup_fmap, Hk. cbn [fmap option_fmap option_map].
    rewrite bool_decide_eq_true_2 by reflexivity. reflexivity. }
  assert (Hsome : forall p : Player, bool_decide (is_Some (Some p)) = true)
    by (intros p; apply bool_decide_eq_true_2; eauto).
  assert (Hnone : bool_decide (is_Some (@None Player)) = false)
    by (apply bool_decide_eq_false_2; intros [p Hp]; discriminate Hp).
  exists selected, typed.
  split; [exact Hsel|].
  split; [reflexivity|]. split; [reflexivity|].
  split; [apply Hsome|].
  split; [reflexivity|].
  split; [intros []; reflexivity|].
  split.
  { unfold App.handleSearchChange, App.updateComparison.
    rewrite list_lookup_fmap, Hsel. cbn [fmap option_fmap option_map].
    rewrite bool_decide_eq_true_2 by reflexivity. reflexivity. }
  split; [reflexivity|]. split; [reflexivity|].
  split; [exact Hnone|].
  split; [|intros []; reflexivity].
  unfold App.dropdownShown, typed, selected.
  cbn [App.spread App.showDropdown App.selectedPlayer App.searchTerm
         default App.set_showDropdown App.set_selectedPlayer
         App.set_searchTerm].
  unfold Datatypes.id. rewrite Hnone. reflexivity.
Qed.

Lemma select_then_search_witness :
  exists selected typed : App.Card,
    App.selectPlayer 1 example_player App.initial !! 0%nat = Some selected
    /\ App.detailsShown selected = true
    /\ App.handleSearchChange selected "Jo"
         (App.selectPlayer 1 example_player App.initial) !! 0%nat
       = Some typed
    /\ App.detailsShown typed = false.
Proof.
  destruct (select_then_search 1 example_player App.initial 0
              (App.newCard 1) "Jo" eq_refl eq_refl)
    as (selected & typed & H1 & _ & _ & H2 & _ & _ & H3 & _ & _ & H4 & _).
  exists selected, typed. auto.
Defined.

(** ** Positions as shown and as used *)

Lemma POSITION_LABELS_inv (position text : string) :
  POSITION_LABELS !! position = Some text ->
  (position = "pg_pos" /\ text = "PG")%string
  \/ (position = "sg_pos" /\ text = "SG")%string
  \/ (position = "sf_pos" /\ text = "SF")%string
  \/ (position = "pf_pos" /\ text = "PF")%string
  \/ (position = "c_pos" /\ text = "C")%string.
Proof.
  unfold POSITION_LABELS. cbn [list_to_map foldr uncurry fst snd].
  rewrite !lookup_insert_Some, lookup_empty.
  intuition (subst; auto); discriminate.
Qed.

(** X22.  The codes with a display label are the codes with an aging
    category.  For them the category named in the details box is the
    one whose curve is used; for a code that names nothing the box
    names no category while the wing curve is used, and the search
    drop-down prints the code itself. *)
Theorem position_shown_and_used (position : string) :
  (is_Some (POSITION_LABELS !! position)
   <-> is_Some (POSITION_CATEGORIES !! position))
  /\ (forall category : string,
         Js.get POSITION_CATEGORIES position = Str category ->
         exists table,
           AGING_CURVES !! category = Some table
           /\ forall age : R,
                getAgingDelta age position
                = curve_at (Curve table) (Z.max 20 (Z.min 36 (Zfloor age))))
  /\ (Js.get POSITION_CATEGORIES position = Undefined ->
      positionText position = Str position
      /\ forall age : R,
           getAgingDelta age position
           = curve_at (Curve wing_curve) (Z.max 20 (Z.min 36 (Zfloor age)))).
Proof.
  split; [|split].
  - split; intros [x H].
    + apply POSITION_LABELS_inv in H.
      destruct H as [[-> _]|[[-> _]|[[-> _]|[[-> _]|[-> _]]]]];
        eexists; reflexivity.
    + apply POSITION_CATEGORIES_inv in H.
      destruct H as [[-> _]|[[-> _]|[[-> _]|[[-> _]|[-> _]]]]];
        eexists; reflexivity.
  - intros category H. unfold Js.get in H.
    destruct (POSITION_CATEGORIES !! position) as [c|] eqn:E;
      [|destruct (inherited position); discriminate H].
    injection H as ->.
    destruct (category_has_curve _ _ E) as [table Ht].
    exists table. split; [exact Ht|]. intros age.
    unfold getAgingDelta. rewrite (category_of_known _ _ E).
    unfold AGING_CURVES_get. rewrite Ht. reflexivity.
  - intros H. unfold Js.get in H.
    destruct (POSITION_CATEGORIES !! position) as [c|] eqn:E;
      [discriminate H|].
    destruct (inherited position) eqn:Ei; [discriminate H|].
    split.
    + unfold positionText, Js.get.
      destruct (POSITION_LABELS !! position) as [t|] eqn:El.
      * apply POSITION_LABELS_inv in El.
        destruct El as [[-> _]|[[-> _]|[[-> _]|[[-> _]|[-> _]]]]];
          discriminate E.
      * rewrite Ei. reflexivity.
    + intros age. unfold getAgingDelta.
      rewrite (category_of_unknown _ E Ei). reflexivity.
Qed.

Lemma position_shown_and_used_witness :
  positionText "G" = Str "G"
  /\ getAgingDelta 30 "G"
     = curve_at (Curve wing_curve) (Z.max 20 (Z.min 36 (Zfloor 30))).
Proof.
  destruct (position_shown_and_used "G") as (_ & _ & H).
  destruct (H eq_refl) as [Htext Hcurve].
  split; [exact Htext | apply Hcurve].
Defined.

(** X23.  The computation behind a card ends in a [TypeError] exactly
    for the position codes that name a property inherited from
    [Object.prototype]; for every other code it yields a current
    valuation and five rows. *)
Theorem player_details_completion
    (cfg : SeasonConfig) (comp : Comparison) (player : Player) :
  (inherited (pos player) = true ->
   PlayerDetails cfg comp player = Abrupt TypeError)
  /\ (inherited (pos player) = false ->
      exists details : Details,
        PlayerDetails cfg comp player = Normal details
        /\ seasonLabel <$> rows details = FUTURE_YEARS).
Proof.
  split; [apply PlayerDetails_throws|].
  intros H. destruct (PlayerDetails_completes cfg comp player H) as [d Hd].
  exists d. split; [exact Hd|].
  destruct (PlayerDetails_inv _ _ _ _ Hd) as (_ & _ & _ & Hrows).
  exact (futureRows_labels _ _ _ _ _ _ _ _ _ Hrows).
Qed.

Lemma player_details_completion_witness :
  PlayerDetails SEASON_CONFIG example_scenario
    (mkPlayer "X" "valueOf" 25 1 None None) = Abrupt TypeError
  /\ exists details : Details,
       PlayerDetails SEASON_CONFIG example_scenario example_player
       = Normal details.
Proof.
  split.
  - apply player_details_completion. reflexivity.
  - destruct (proj2 (player_details_completion SEASON_CONFIG example_scenario
                       example_player) eq_refl) as (details & Hd & _).
    exists details. exact Hd.
Defined.

(** X24.  The valuations of the pipeline are those of
    [calculateSalaryWithAging]: the current season with the partial-year
    delta, projected season [idx + 1] with the cumulative delta over
    [idx + 1] years. *)
Theorem pipeline_uses_salary_with_aging
    (cfg : SeasonConfig) (comp : Comparison) (player : Player)
    (details : Details) :
  PlayerDetails cfg comp player = Normal details ->
  (exists partial : R,
      getPartialYearAgingDelta cfg (age player) (pos player) None
      = Normal partial
      /\ currentYearSalary details
         = calculateSalaryWithAging (games comp) (minutes comp)
             (darko player) (improvement comp) partial)
  /\ forall idx : nat,
       (idx < 5)%nat ->
       exists cumulative : R,
         getCumulativeAgingDelta cfg (age player) (pos player)
           (Z.of_nat (S idx)) false = Normal cumulative
         /\ rawSalary player (games comp) (minutes comp) (improvement comp)
              idx
            = Normal (calculateSalaryWithAging (games comp) (minutes comp)
                        (darko player) (improvement comp) cumulative).
Proof.
  intros Hd.
  destruct (PlayerDetails_inv _ _ _ _ Hd) as (delta & Hdelta & Hcur & _).
  split.
  - exists (delta * getSeasonProgress cfg None).
    unfold getPartialYearAgingDelta. rewrite Hdelta.
    split; [reflexivity | exact Hcur].
  - intros idx Hidx.
    assert (exists season, FUTURE_YEARS !! idx = Some season) as [season Hl]
        by (apply lookup_lt_is_Some; cbn; lia).
    destruct (PlayerDetails_row _ _ _ _ _ _ Hd Hl) as (row & _ & Hf).
    destruct (futureRow_inv _ _ _ _ _ _ _ Hf) as (raw & inflated & Hraw & _).
    rewrite getCumulativeAgingDelta_sum.
    rewrite rawSalary_sum in Hraw |- *.
    destruct (sumOfFullYearDeltas (age player) (pos player) (S idx))
      as [sum|e]; [|discriminate Hraw].
    exists sum. split; reflexivity.
Qed.

Lemma pipeline_uses_salary_with_aging_witness :
  exists (details : Details) (partial : R),
    PlayerDetails SEASON_CONFIG example_scenario example_player
    = Normal details
    /\ currentYearSalary details
       = calculateSalaryWithAging 30 10 (-2.5) 0 partial.
Proof.
  destruct (PlayerDetails_completes SEASON_CONFIG example_scenario
              example_player eq_refl) as [details Hd].
  destruct (pipeline_uses_salary_with_aging _ _ _ _ Hd)
    as [(partial & _ & Hcur) _].
  exists details, partial. split; [exact Hd | exact Hcur].
Defined.
